(** * aws-lambda-upload: the packaging pipeline of [lib/main.ts]

    A shallow embedding of [fsWalk], [_makeTmpZipFile], [packageZipS3] and
    [parseTemplate], together with the parts of the platform they run on
    (Node's POSIX [path] module, a tree-shaped file system, [process.env],
    an S3 store), and the properties of the specification stated over it. *)

From Stdlib Require Import ZArith NArith Ascii String DecimalString.
From stdpp Require Import gmap strings list sorting.

(** ** Strings and characters *)

Definition slash : ascii := "/"%char.
Definition dot : ascii := "."%char.

Definition is_slash (c : ascii) : bool := bool_decide (c = slash).
Definition is_dot (c : ascii) : bool := bool_decide (c = dot).

Fixpoint drop_while {A} (f : A → bool) (l : list A) : list A :=
  match l with
  | [] => []
  | x :: l' => if f x then drop_while f l' else l
  end.

Fixpoint take_while {A} (f : A → bool) (l : list A) : list A :=
  match l with
  | [] => []
  | x :: l' => if f x then x :: take_while f l' else []
  end.

Definition chars (s : string) : list ascii := list_ascii_of_string s.
Definition str (l : list ascii) : string := string_of_list_ascii l.

(** [s.endsWith("/")] and [s.charCodeAt(0) === 47]. *)
Definition ends_with_slash (s : string) : bool :=
  match rev (chars s) with
  | c :: _ => is_slash c
  | [] => false
  end.

Definition starts_with_slash (s : string) : bool :=
  match s with
  | String c _ => is_slash c
  | EmptyString => false
  end.

(** No character of [s] is a separator. *)
Fixpoint no_slash (s : string) : bool :=
  match s with
  | EmptyString => true
  | String c s' => negb (is_slash c) && no_slash s'
  end.

(** ** Node's [path] module (POSIX flavour)

    [path] is a platform library; the functions below follow the algorithms
    of [path.posix]: [dirname], [parse] and [extname] scan the characters
    from the right, [normalize], [join], [resolve] and [relative] work on
    the segments between separators. *)

Module Path.

(** The segments of [s] between separators: ["a//b"] gives [a], the empty
    segment and [b]. *)
Fixpoint split_slash (s : string) : list string :=
  match s with
  | EmptyString => [EmptyString]
  | String c s' =>
      if is_slash c then EmptyString :: split_slash s'
      else match split_slash s' with
           | [] => [String c EmptyString]
           | h :: t => String c h :: t
           end
  end.

Fixpoint join_slash (segs : list string) : string :=
  match segs with
  | [] => EmptyString
  | [x] => x
  | x :: rest => x +:+ "/" +:+ join_slash rest
  end.

(** One step of [normalizeString]: the stack holds the segments kept so
    far, last one first. *)
Definition norm_step (allowAboveRoot : bool) (stack : list string) (seg : string)
  : list string :=
  if bool_decide (seg = EmptyString) || bool_decide (seg = ".") then stack
  else if bool_decide (seg = "..") then
    match stack with
    | top :: rest =>
        if bool_decide (top = "..")
        then (if allowAboveRoot then ".." :: stack else stack)
        else rest
    | [] => if allowAboveRoot then [".."] else []
    end
  else seg :: stack.

Definition norm_segs (allowAboveRoot : bool) (segs : list string) : list string :=
  rev (fold_left (norm_step allowAboveRoot) segs []).

(** [path.normalize] *)
Definition normalize (p : string) : string :=
  if bool_decide (p = EmptyString) then "."
  else
    let isAbsolute := starts_with_slash p in
    let trailingSeparator := ends_with_slash p in
    let body := join_slash (norm_segs (negb isAbsolute) (split_slash p)) in
    if bool_decide (body = EmptyString) then
      (if isAbsolute then "/" else if trailingSeparator then "./" else ".")
    else
      (if isAbsolute then "/" else EmptyString) +:+ body +:+
      (if trailingSeparator then "/" else EmptyString).

(** [path.join(a, b)]: empty arguments are skipped. *)
Definition join (a b : string) : string :=
  if bool_decide (a = EmptyString) then
    (if bool_decide (b = EmptyString) then "." else normalize b)
  else if bool_decide (b = EmptyString) then normalize a
  else normalize (a +:+ "/" +:+ b).

(** [path.resolve(p)] as a list of segments below the root; [cwd] is
    [process.cwd()], itself a list of segments. *)
Definition resolve_segs (cwd : list string) (p : string) : list string :=
  norm_segs false ((if starts_with_slash p then [] else cwd) ++ split_slash p).

Fixpoint strip_common (a b : list string) : list string * list string :=
  match a, b with
  | x :: a', y :: b' => if bool_decide (x = y) then strip_common a' b' else (a, b)
  | _, _ => (a, b)
  end.

(** [path.relative(from, to)] *)
Definition relative (cwd : list string) (from to : string) : string :=
  if bool_decide (from = to) then EmptyString
  else
    let '(f, t) := strip_common (resolve_segs cwd from) (resolve_segs cwd to) in
    join_slash (replicate (length f) ".." ++ t).

(** [path.dirname] *)
Definition dirname (p : string) : string :=
  match chars p with
  | [] => "."
  | c0 :: rest =>
      let r1 := drop_while is_slash (rev rest) in
      let r2 := drop_while (λ c, negb (is_slash c)) r1 in
      match r2 with
      | [] => if is_slash c0 then "/" else "."
      | _ :: r3 =>
          if is_slash c0 && bool_decide (r3 = []) then "//"
          else str (c0 :: rev r3)
      end
  end.

(** The last component of [p], reversed, trailing separators skipped. *)
Definition base_rev (p : string) : list ascii :=
  take_while (λ c, negb (is_slash c)) (drop_while is_slash (rev (chars p))).

(** Name and extension of a (reversed) base: the extension starts at the
    last dot, unless there is none, it is the first character, or the base
    is [..]. *)
Definition split_ext (b : list ascii) : string * string :=
  let ext_rev := take_while (λ c, negb (is_dot c)) b in
  match drop_while (λ c, negb (is_dot c)) b with
  | [] => (str (rev b), EmptyString)
  | _ :: name_rev =>
      if bool_decide (name_rev = []) then (str (rev b), EmptyString)
      else if bool_decide (ext_rev = []) && bool_decide (name_rev = [dot])
      then (str (rev b), EmptyString)
      else (str (rev name_rev), str (dot :: rev ext_rev))
  end.

(** [path.extname] *)
Definition extname (p : string) : string := (split_ext (base_rev p)).2.

Record ParsedPath := {
  root : string;
  dir : string;
  base : string;
  ext : string;
  name : string;
}.

(** [path.parse] *)
Definition parse (p : string) : ParsedPath :=
  match chars p with
  | [] => {| root := EmptyString; dir := EmptyString; base := EmptyString; ext := EmptyString; name := EmptyString |}
  | c0 :: rest =>
      let isAbsolute := is_slash c0 in
      let body := if isAbsolute then rest else c0 :: rest in
      let r1 := drop_while is_slash (rev body) in
      let b := take_while (λ c, negb (is_slash c)) r1 in
      let r2 := drop_while (λ c, negb (is_slash c)) r1 in
      let '(nm, ex) := split_ext b in
      {| root := if isAbsolute then "/" else EmptyString;
         dir := match r2 with
                | _ :: r3 => str ((if isAbsolute then [c0] else []) ++ rev r3)
                | [] => if isAbsolute then "/" else EmptyString
                end;
         base := str (rev b);
         ext := ex;
         name := nm |}
  end.

End Path.

(** ** Values and errors *)

Definition bytes := string.

(** The character [U+0022], for the text of the stub module. *)
Definition dquote : string := String "034"%char EmptyString.
Definition newline : string := String "010"%char EmptyString.

(** A JavaScript value that is a string or [undefined]. *)
Definition js_String (v : option string) : string := default "undefined" v.

(** Truthiness of an optional string: [undefined] and the empty string are
    falsy. *)
Definition truthy (v : option string) : bool :=
  match v with
  | Some s => negb (bool_decide (s = EmptyString))
  | None => false
  end.

(** [v || dflt] *)
Definition or_default (v : option string) (dflt : string) : string :=
  if truthy v then js_String v else dflt.

Definition string_of_nat (n : nat) : string := NilEmpty.string_of_uint (Nat.to_uint n).
Definition string_of_Z (z : Z) : string := NilZero.string_of_int (Z.to_int z).

Record JsError := {
  e_name : string;
  e_code : string;
  e_message : string;
}.

(** [new Error(msg)] *)
Definition mkError (msg : string) : JsError :=
  {| e_name := "Error"; e_code := EmptyString; e_message := msg |}.

(** An error of the platform or of a service, with its [code]. *)
Definition sysError (code msg : string) : JsError :=
  {| e_name := "Error"; e_code := code; e_message := msg |}.

(** [`${e}`] *)
Definition err_to_string (e : JsError) : string := e_name e +:+ ": " +:+ e_message e.

Inductive result (A : Type) :=
| Ok (a : A)
| Err (e : JsError).
Arguments Ok {A} a.
Arguments Err {A} e.

(** ** File system: a tree of directories and files *)

(** Times are in milliseconds since the epoch, as [Date.getTime()]. *)
Record Meta := {
  mode : N;
  atime : Z;
  mtime : Z;
}.

#[warnings="-register-all"]
Inductive node :=
| File (m : Meta) (data : bytes)
| Dir (m : Meta) (kids : list (string * node)).

Definition meta_of (t : node) : Meta :=
  match t with File m _ => m | Dir m _ => m end.

Definition is_dir (t : node) : bool :=
  match t with File _ _ => false | Dir _ _ => true end.

Definition kids_of (t : node) : list (string * node) :=
  match t with File _ _ => [] | Dir _ kids => kids end.

Definition set_meta (f : Meta → Meta) (t : node) : node :=
  match t with File m d => File (f m) d | Dir m kids => Dir (f m) kids end.

Fixpoint child (n : string) (kids : list (string * node)) : option node :=
  match kids with
  | [] => None
  | (n', k) :: rest => if bool_decide (n' = n) then Some k else child n rest
  end.

(** Replace the child called [n], or add it at the end of the directory. *)
Fixpoint set_child (n : string) (k : node) (kids : list (string * node))
  : list (string * node) :=
  match kids with
  | [] => [(n, k)]
  | (n', k') :: rest =>
      if bool_decide (n' = n) then (n, k) :: rest else (n', k') :: set_child n k rest
  end.

Fixpoint del_child (n : string) (kids : list (string * node)) : list (string * node) :=
  match kids with
  | [] => []
  | (n', k') :: rest =>
      if bool_decide (n' = n) then rest else (n', k') :: del_child n rest
  end.

Fixpoint alter_child (n : string) (f : node → node) (kids : list (string * node))
  : list (string * node) :=
  match kids with
  | [] => []
  | (n', k') :: rest =>
      if bool_decide (n' = n) then (n', f k') :: rest
      else (n', k') :: alter_child n f rest
  end.

Fixpoint lookup_node (cs : list string) (t : node) : option node :=
  match cs with
  | [] => Some t
  | c :: cs' =>
      match t with
      | Dir _ kids =>
          match child c kids with
          | Some k => lookup_node cs' k
          | None => None
          end
      | File _ _ => None
      end
  end.

Fixpoint alter_node (cs : list string) (f : node → node) (t : node) : node :=
  match cs with
  | [] => f t
  | c :: cs' =>
      match t with
      | Dir m kids => Dir m (alter_child c (alter_node cs' f) kids)
      | File _ _ => t
      end
  end.

Definition dir_meta (now : Z) : Meta := {| mode := 448; atime := now; mtime := now |}.

(** Put [new] at [cs], creating the directories on the way as [mkdir -p]
    does. *)
Fixpoint put_node (now : Z) (cs : list string) (new : node) (t : node) : node :=
  match cs with
  | [] => new
  | c :: cs' =>
      let m := match t with Dir m _ => m | File _ _ => dir_meta now end in
      let kids := kids_of t in
      let sub := default (Dir (dir_meta now) []) (child c kids) in
      Dir m (set_child c (put_node now cs' new sub) kids)
  end.

Fixpoint remove_node (cs : list string) (t : node) : node :=
  match cs with
  | [] => t
  | [c] => match t with Dir m kids => Dir m (del_child c kids) | File _ _ => t end
  | c :: cs' =>
      match t with
      | Dir m kids => Dir m (alter_child c (remove_node cs') kids)
      | File _ _ => t
      end
  end.

(** The same tree with the metadata and the data rewritten. *)
Fixpoint node_map (fm : Meta → Meta) (fd : bytes → bytes) (t : node) : node :=
  match t with
  | File m d => File (fm m) (fd d)
  | Dir m kids => Dir (fm m) (map (λ nk, (nk.1, node_map fm fd nk.2)) kids)
  end.

Definition meta0 : Meta := {| mode := 0; atime := 0; mtime := 0 |}.

(** Names and kinds only. *)
Definition shape (t : node) : node := node_map (λ _, meta0) (λ _, EmptyString) t.

(** Everything but the two timestamps: names, kinds, modes and data. *)
Definition no_times (m : Meta) : Meta := {| mode := mode m; atime := 0; mtime := 0 |}.
Definition content_view (t : node) : node := node_map no_times id t.

(** What [zip -X] stores of an entry: the access time is left out. *)
Definition no_atime (m : Meta) : Meta := {| mode := mode m; atime := 0; mtime := mtime m |}.
Definition zip_view (kids : list (string * node)) : list (string * node) :=
  map (λ nk, (nk.1, node_map no_atime id nk.2)) kids.

Fixpoint node_size (t : node) : nat :=
  match t with
  | File _ _ => 1
  | Dir _ kids => S (sum_list (map (λ nk, node_size nk.2) kids))
  end.

(** Every entry of the tree has modification time [v]. *)
Fixpoint all_mtime (v : Z) (t : node) : bool :=
  match t with
  | File m _ => bool_decide (mtime m = v)
  | Dir m kids => bool_decide (mtime m = v) && forallb (λ nk, all_mtime v nk.2) kids
  end.

(** A name as [readdir] returns it. *)
Definition valid_name (n : string) : bool :=
  negb (bool_decide (n = EmptyString)) && no_slash n &&
  negb (bool_decide (n = ".")) && negb (bool_decide (n = "..")).

Fixpoint nodup_names (ns : list string) : bool :=
  match ns with
  | [] => true
  | n :: rest => negb (bool_decide (n ∈ rest)) && nodup_names rest
  end.

(** Directory entries have valid, pairwise distinct names. *)
Fixpoint wf_node (t : node) : bool :=
  match t with
  | File _ _ => true
  | Dir _ kids =>
      nodup_names (map fst kids) &&
      forallb (λ nk, valid_name nk.1 && wf_node nk.2) kids
  end.

(** ** Sorting names: [Array.prototype.sort] on strings

    The default comparison orders strings by their code units; the result is
    the sorted permutation, computed here by insertion. *)

Fixpoint insert_on {A} (key : A → string) (x : A) (l : list A) : list A :=
  match l with
  | [] => [x]
  | y :: l' =>
      if bool_decide (String.le (key x) (key y)) then x :: l
      else y :: insert_on key x l'
  end.

Fixpoint sort_on {A} (key : A → string) (l : list A) : list A :=
  match l with
  | [] => []
  | x :: l' => insert_on key x (sort_on key l')
  end.

Definition js_sort (l : list string) : list string := sort_on id l.

(** The lexicographic preorder of a tree: an entry before its children,
    the children of a directory by name. *)
Fixpoint preorder (t : node) (p : string) : list (string * bool) :=
  match t with
  | File _ _ => [(p, false)]
  | Dir _ kids =>
      (p, true) ::
      flat_map (λ nf : string * (string → list (string * bool)), nf.2 (Path.join p nf.1))
        (sort_on fst (map (λ nk, (nk.1, preorder nk.2)) kids))
  end.

(** ** The process and its surroundings *)

(** What the outside world can observe of a run, in order. *)
Inductive Event :=
| LogInfo (msg : string)
| LogDebug (msg : string)
| CallCollect (argv : list string) (node_path : option string)
| CallCb (fpath : string) (isDirectory : bool)
| CallZip (cwd : string) (argv : list string)
| S3HeadBucket (bucket : string)
| S3CreateBucket (bucket : string)
| S3ListObjectsV2 (bucket : string) (maxKeys : nat) (prefix : string)
| S3Upload (bucket key contentMD5 : string).

(** An S3 endpoint: the buckets with their objects, and the buckets whose
    [headBucket] is refused, with the error code returned. *)
Record S3 := {
  buckets : gmap string (gmap string bytes);
  refused : gmap string string;
}.

Record World := {
  w_fs : node;                        (* the root directory *)
  w_cwd : list string;                (* process.cwd() *)
  w_umask : N;
  w_NODE_PATH : option string;        (* process.env.NODE_PATH *)
  w_tmp : nat;                        (* names handed out by [tmp] so far *)
  w_clock : Z;
  w_cache : gmap string string;       (* the Map behind options.cache *)
  w_browserifyArgs : list string;     (* the array behind options.browserifyArgs *)
  w_s3 : S3;
  w_trace : list Event;
}.

Definition set_fs (f : node → node) (w : World) : World :=
  {| w_fs := f (w_fs w); w_cwd := w_cwd w; w_umask := w_umask w;
     w_NODE_PATH := w_NODE_PATH w; w_tmp := w_tmp w; w_clock := w_clock w;
     w_cache := w_cache w; w_browserifyArgs := w_browserifyArgs w;
     w_s3 := w_s3 w; w_trace := w_trace w |}.

Definition set_NODE_PATH (v : option string) (w : World) : World :=
  {| w_fs := w_fs w; w_cwd := w_cwd w; w_umask := w_umask w;
     w_NODE_PATH := v; w_tmp := w_tmp w; w_clock := w_clock w;
     w_cache := w_cache w; w_browserifyArgs := w_browserifyArgs w;
     w_s3 := w_s3 w; w_trace := w_trace w |}.

Definition set_tmp (n : nat) (w : World) : World :=
  {| w_fs := w_fs w; w_cwd := w_cwd w; w_umask := w_umask w;
     w_NODE_PATH := w_NODE_PATH w; w_tmp := n; w_clock := w_clock w;
     w_cache := w_cache w; w_browserifyArgs := w_browserifyArgs w;
     w_s3 := w_s3 w; w_trace := w_trace w |}.

Definition set_clock (z : Z) (w : World) : World :=
  {| w_fs := w_fs w; w_cwd := w_cwd w; w_umask := w_umask w;
     w_NODE_PATH := w_NODE_PATH w; w_tmp := w_tmp w; w_clock := z;
     w_cache := w_cache w; w_browserifyArgs := w_browserifyArgs w;
     w_s3 := w_s3 w; w_trace := w_trace w |}.

Definition set_cache (f : gmap string string → gmap string string) (w : World) : World :=
  {| w_fs := w_fs w; w_cwd := w_cwd w; w_umask := w_umask w;
     w_NODE_PATH := w_NODE_PATH w; w_tmp := w_tmp w; w_clock := w_clock w;
     w_cache := f (w_cache w); w_browserifyArgs := w_browserifyArgs w;
     w_s3 := w_s3 w; w_trace := w_trace w |}.

Definition set_browserifyArgs (l : list string) (w : World) : World :=
  {| w_fs := w_fs w; w_cwd := w_cwd w; w_umask := w_umask w;
     w_NODE_PATH := w_NODE_PATH w; w_tmp := w_tmp w; w_clock := w_clock w;
     w_cache := w_cache w; w_browserifyArgs := l;
     w_s3 := w_s3 w; w_trace := w_trace w |}.

Definition set_s3 (f : S3 → S3) (w : World) : World :=
  {| w_fs := w_fs w; w_cwd := w_cwd w; w_umask := w_umask w;
     w_NODE_PATH := w_NODE_PATH w; w_tmp := w_tmp w; w_clock := w_clock w;
     w_cache := w_cache w; w_browserifyArgs := w_browserifyArgs w;
     w_s3 := f (w_s3 w); w_trace := w_trace w |}.

Definition emit (e : Event) (w : World) : World :=
  {| w_fs := w_fs w; w_cwd := w_cwd w; w_umask := w_umask w;
     w_NODE_PATH := w_NODE_PATH w; w_tmp := w_tmp w; w_clock := w_clock w;
     w_cache := w_cache w; w_browserifyArgs := w_browserifyArgs w;
     w_s3 := w_s3 w; w_trace := w_trace w ++ [e] |}.

(** ** Computations: state and exceptions

    An [async] function that awaits each step in turn is a function from the
    world to an outcome and the world after it. *)

Definition M (A : Type) : Type := World → result A * World.

Definition ret {A} (a : A) : M A := λ w, (Ok a, w).
Definition throw {A} (e : JsError) : M A := λ w, (Err e, w).

Definition bind {A B} (m : M A) (k : A → M B) : M B :=
  λ w, match m w with
       | (Ok a, w') => k a w'
       | (Err e, w') => (Err e, w')
       end.

Notation "'let*' x ':=' m 'in' k" := (bind m (λ x, k))
  (at level 10, x name, m at level 100, k at level 200, only parsing).
Notation "m '>>' k" := (bind m (λ _, k))
  (at level 100, k at level 200, right associativity, only parsing).

(** [try { body } catch (err) { handler }] *)
Definition try_catch {A} (body : M A) (handler : JsError → M A) : M A :=
  λ w, match body w with
       | (Ok a, w') => (Ok a, w')
       | (Err e, w') => handler e w'
       end.

(** [try { body } finally { fin }], for a [fin] that completes normally. *)
Definition try_finally {A} (body : M A) (fin : World → World) : M A :=
  λ w, let '(r, w') := body w in (r, fin w').

Definition modify (f : World → World) : M unit := λ w, (Ok tt, f w).
Definition gets {A} (f : World → A) : M A := λ w, (Ok (f w), w).

Fixpoint mapM {A B} (f : A → M B) (l : list A) : M (list B) :=
  match l with
  | [] => ret []
  | x :: l' => let* y := f x in let* ys := mapM f l' in ret (y :: ys)
  end.

Definition logger_info (msg : string) : M unit := modify (emit (LogInfo msg)).
Definition logger_debug (msg : string) : M unit := modify (emit (LogDebug msg)).

(** ** [process.env]

    Reading a variable that is not set gives [undefined]; assigning a value
    converts it to a string, so that assigning [undefined] stores the
    string ["undefined"]. *)

Definition env_get_NODE_PATH : M (option string) := gets w_NODE_PATH.

Definition env_assign_NODE_PATH (v : option string) : World → World :=
  set_NODE_PATH (Some (js_String v)).

(** ** [fs] and [fs-extra] *)

Record Stats := {
  st_isDirectory : bool;
  st_mode : N;
  st_atime : Z;
  st_mtime : Z;
}.

Definition stats_of (t : node) : Stats :=
  {| st_isDirectory := is_dir t; st_mode := mode (meta_of t);
     st_atime := atime (meta_of t); st_mtime := mtime (meta_of t) |}.

(** The entry a path names; the empty path names nothing. *)
Definition node_at (w : World) (p : string) : option node :=
  if bool_decide (p = EmptyString) then None
  else lookup_node (Path.resolve_segs (w_cwd w) p) (w_fs w).

Definition ENOENT (p : string) : JsError :=
  sysError "ENOENT" ("ENOENT: no such file or directory, " +:+ p).
Definition ENOTDIR (p : string) : JsError :=
  sysError "ENOTDIR" ("ENOTDIR: not a directory, " +:+ p).
Definition EISDIR (p : string) : JsError :=
  sysError "EISDIR" ("EISDIR: illegal operation on a directory, " +:+ p).

Definition stat (p : string) : M Stats :=
  λ w, match node_at w p with
       | Some t => (Ok (stats_of t), w)
       | None => (Err (ENOENT p), w)
       end.

Definition readdir (p : string) : M (list string) :=
  λ w, match node_at w p with
       | Some (Dir _ kids) => (Ok (map fst kids), w)
       | Some (File _ _) => (Err (ENOTDIR p), w)
       | None => (Err (ENOENT p), w)
       end.

Definition readFile (p : string) : M bytes :=
  λ w, match node_at w p with
       | Some (File _ d) => (Ok d, w)
       | Some (Dir _ _) => (Err (EISDIR p), w)
       | None => (Err (ENOENT p), w)
       end.

(** [fse.utimes(p, a / 1000, m / 1000)], the two times given here in
    milliseconds. *)
Definition utimes (p : string) (a m : Z) : M unit :=
  λ w, match node_at w p with
       | Some _ =>
           (Ok tt,
            set_fs (alter_node (Path.resolve_segs (w_cwd w) p)
                      (set_meta (λ m0, {| mode := mode m0; atime := a; mtime := m |}))) w)
       | None => (Err (ENOENT p), w)
       end.

Definition new_file_mode (w : World) : N := N.ldiff 438 (w_umask w).

Definition touch_mtime (now : Z) (m : Meta) : Meta :=
  {| mode := mode m; atime := atime m; mtime := now |}.

(** [fse.writeFile(p, data)]: the directory of [p] must exist; an existing
    file is overwritten, a new one is added to its directory. *)
Definition writeFile (p : string) (data : bytes) : M unit :=
  λ w,
    let cs := Path.resolve_segs (w_cwd w) p in
    let now := w_clock w in
    match rev cs with
    | [] => (Err (if bool_decide (p = EmptyString) then ENOENT p else EISDIR p), w)
    | n :: rparent =>
        let parent := rev rparent in
        if bool_decide (p = EmptyString) then (Err (ENOENT p), w) else
        match lookup_node parent (w_fs w) with
        | Some (Dir _ kids) =>
            match child n kids with
            | Some (Dir _ _) => (Err (EISDIR p), w)
            | Some (File m _) =>
                (Ok tt,
                 set_clock (now + 1)
                   (set_fs (alter_node parent (λ d,
                      match d with
                      | Dir dm ks => Dir dm (set_child n (File (touch_mtime now m) data) ks)
                      | File _ _ => d
                      end)) w))
            | None =>
                (Ok tt,
                 set_clock (now + 1)
                   (set_fs (alter_node parent (λ d,
                      match d with
                      | Dir dm ks =>
                          Dir (touch_mtime now dm)
                            (set_child n
                               (File {| mode := new_file_mode w; atime := now; mtime := now |}
                                  data) ks)
                      | File _ _ => d
                      end)) w))
            end
        | Some (File _ _) => (Err (ENOTDIR p), w)
        | None => (Err (ENOENT p), w)
        end
    end.

(** [fse.remove(p)]: the entry and all below it; nothing when it is absent. *)
Definition remove (p : string) : World → World :=
  λ w, if bool_decide (p = EmptyString) then w
       else set_fs (remove_node (Path.resolve_segs (w_cwd w) p)) w.

(** ** [tmp]

    [tmp.dir] and [tmp.file] create an entry with an unused name in the
    temporary directory and return its absolute path; the names are
    numbered here. *)

Definition tmp_name (prefix : string) (n : nat) (postfix : string) : string :=
  prefix +:+ string_of_nat n +:+ postfix.

Definition tmp_path (nm : string) : string := "/tmp/" +:+ nm.

Definition tmp_dir (prefix : string) : M string :=
  λ w,
    let nm := tmp_name prefix (w_tmp w) EmptyString in
    let now := w_clock w in
    (Ok (tmp_path nm),
     set_clock (now + 1) (set_tmp (S (w_tmp w))
       (set_fs (put_node now ["tmp"; nm] (Dir (dir_meta now) [])) w))).

Definition tmp_file (prefix postfix : string) : M string :=
  λ w,
    let nm := tmp_name prefix (w_tmp w) postfix in
    let now := w_clock w in
    (Ok (tmp_path nm),
     set_clock (now + 1) (set_tmp (S (w_tmp w))
       (set_fs (put_node now ["tmp"; nm]
                  (File {| mode := 384; atime := now; mtime := now |} EmptyString)) w))).

(** ** External collaborators

    The dependency collector, the [zip] program, [require.resolve], the
    digest and its encodings, and the two template parsers are used as
    black boxes. *)

Class Externals := {
  (** [collectJsDeps(argv)], run with the given [NODE_PATH] in the given
      working directory: the outcome and the file system it leaves. *)
  collector : list string → option string → list string → node → result unit * node;
  (** [zip -q -r -X <out> .] run in a directory with the given entries:
      the exit code and the bytes of the archive. *)
  zip_program : list (string * node) → Z * bytes;
  (** [require.resolve("tsify")] *)
  tsify_path : string;
  (** [createHash("md5").update(data).digest()] and [buf.toString(enc)] *)
  md5 : bytes → bytes;
  to_hex : bytes → string;
  to_base64 : bytes → string;
  (** Parsed templates, [JSON.parse] and [yamlParse]. *)
  template : Type;
  JSON_parse : string → result template;
  yamlParse : string → result template;
}.

Section Program.
Context `{Externals}.

Definition collectJsDeps (argv : list string) : M unit :=
  λ w,
    let w1 := emit (CallCollect argv (w_NODE_PATH w)) w in
    let '(r, fs') := collector argv (w_NODE_PATH w) (w_cwd w) (w_fs w) in
    (r, set_fs (λ _, fs') w1).

(** [spawn("zip", ["-q", "-r", "-X", zipPath, "."], {cwd})] *)
Definition spawn_zip (zipPath : string) (cwd : string) : M unit :=
  λ w,
    let w1 := emit (CallZip cwd ["-q"; "-r"; "-X"; zipPath; "."]) w in
    match node_at w cwd with
    | Some (Dir _ kids) =>
        let '(code, data) := zip_program (zip_view kids) in
        if bool_decide (code ≠ 0%Z) then
          (Err (mkError ("Command failed with exit code " +:+ string_of_Z code)), w1)
        else
          let now := w_clock w in
          (Ok tt,
           set_clock (now + 1)
             (set_fs (put_node now (Path.resolve_segs (w_cwd w) zipPath)
                        (File {| mode := new_file_mode w; atime := now; mtime := now |}
                           data)) w1))
    | _ => (Err (ENOENT cwd), w1)
    end.

(** ** [fsWalk] *)

Definition Callback := string → Stats → M unit.

(** The loop of [fsWalk]. [todo] is the array used as a stack, its last
    element first: [pop] takes the head, and [push(...items)] leaves the
    last of [items] on top. The loop runs as long as the array is not
    empty; [fuel] bounds the number of iterations, and [None] is a loop cut
    short. *)
Fixpoint fsWalk_loop (fuel : nat) (cb : Callback) (todo : list (string * Stats))
  : World → option (result unit * World) :=
  λ w,
    match todo with
    | [] => Some (Ok tt, w)
    | (fpath, st) :: todo' =>
        match fuel with
        | O => None
        | S fuel' =>
            match cb fpath st (emit (CallCb fpath (st_isDirectory st)) w) with
            | (Err e, w1) => Some (Err e, w1)
            | (Ok _, w1) =>
                if st_isDirectory st then
                  match readdir fpath w1 with
                  | (Err e, w2) => Some (Err e, w2)
                  | (Ok entries, w2) =>
                      let entries := rev (js_sort entries) in
                      let paths := map (λ e, Path.join fpath e) entries in
                      match mapM stat paths w2 with
                      | (Err e, w3) => Some (Err e, w3)
                      | (Ok stats, w3) =>
                          fsWalk_loop fuel' cb (rev (zip paths stats) ++ todo') w3
                      end
                  end
                else fsWalk_loop fuel' cb todo' w1
            end
        end
    end.

Definition fsWalk (fuel : nat) (topDir : string) (cb : Callback)
  : World → option (result unit * World) :=
  λ w,
    match stat topDir w with
    | (Err e, w1) => Some (Err e, w1)
    | (Ok st, w1) => fsWalk_loop fuel cb [(topDir, st)] w1
    end.


(** The walk of [_makeTmpZipFile], with as many iterations as the tree
    under [topDir] has entries. *)
Definition fsWalk_tree (topDir : string) (cb : Callback) : M unit :=
  λ w,
    let fuel := match node_at w topDir with Some t => node_size t | None => 0 end in
    match fsWalk fuel topDir cb w with
    | Some r => r
    | None => (Err (mkError "fsWalk: loop cut short"), w)
    end.

(** ** [_makeTmpZipFile] *)

Record ICollectOpts := {
  browserifyArgs : bool;        (* options.browserifyArgs is given *)
  tsconfig : option string;
  nodePath : option string;
  cache : bool;                 (* options.cache is given *)
}.

(** The text written to the stub. *)
Definition stub_text (requirePath : string) : string :=
  "module.exports = require(" +:+ dquote +:+ "./" +:+ requirePath +:+ dquote +:+ ");"
  +:+ newline.

(** [const args = options.browserifyArgs || []; if (options.tsconfig)
    args.push(...)]: the pushes go to the caller's array when there is one. *)
Definition collect_args (options : ICollectOpts) : M (list string) :=
  λ w,
    let args := if browserifyArgs options then w_browserifyArgs w else [] in
    match tsconfig options with
    | Some ts =>
        if truthy (Some ts) then
          let args' := args ++ ["-p"; "["; tsify_path; "-p"; ts; "]"] in
          (Ok args',
           if browserifyArgs options then set_browserifyArgs args' w else w)
        else (Ok args, w)
    | None => (Ok args, w)
    end.

(** The stub step, lines 112-121. *)
Definition make_stub (startPath stageDir : string) : M unit :=
  if bool_decide (Path.dirname startPath ≠ ".") then
    let start := Path.parse startPath in
    let stubPath := Path.join stageDir (Path.name start +:+ ".js") in
    let* cwd := gets w_cwd in
    let requirePath :=
      Path.relative cwd EmptyString (Path.join (Path.dir start) (Path.name start)) in
    writeFile stubPath (stub_text requirePath)
  else ret tt.

(** The normalization step, line 125. *)
Definition normalize_times (stageDir : string) : M unit :=
  fsWalk_tree stageDir (λ fpath st, utimes fpath (st_atime st) 0).

(** Lines 111-139: from the collected files to the archive. *)
Definition package_stage (startPath stageDir : string) (options : ICollectOpts)
  : M string :=
  make_stub startPath stageDir >>
  normalize_times stageDir >>
  let* zipPath := tmp_file "aws-lambda-" ".zip" in
  modify (remove zipPath) >>
  spawn_zip zipPath stageDir >>
  (if cache options
   then modify (set_cache (insert startPath zipPath))
   else ret tt) >>
  ret zipPath.

Definition _makeTmpZipFile (startPath : string) (options : ICollectOpts) : M string :=
  λ w,
    match (if cache options then w_cache w !! startPath else None) with
    | Some zipPath =>
        (logger_debug ("Reusing cached zip file for " +:+ startPath) >>
         ret zipPath) w
    | None =>
        (let* args := collect_args options in
         let* prevNodePath := env_get_NODE_PATH in
         let* stageDir := tmp_dir "aws-lambda-" in
         try_finally
           (logger_debug ("Collecting files from " +:+ startPath +:+ " in " +:+ stageDir) >>
            match nodePath options with
            | Some v => modify (env_assign_NODE_PATH (Some v))
            | None => ret tt
            end >>
            collectJsDeps (["--outdir"; stageDir] ++ args ++ [startPath]) >>
            package_stage startPath stageDir options)
           (λ w', remove stageDir (env_assign_NODE_PATH prevNodePath w'))) w
    end.

(** ** S3 *)

Definition headBucket (b : string) : M unit :=
  λ w,
    let w1 := emit (S3HeadBucket b) w in
    match refused (w_s3 w) !! b with
    | Some code => (Err (sysError code code), w1)
    | None =>
        match buckets (w_s3 w) !! b with
        | Some _ => (Ok tt, w1)
        | None => (Err (sysError "NotFound" "NotFound"), w1)
        end
    end.

Definition createBucket (b : string) : M unit :=
  λ w,
    let w1 := emit (S3CreateBucket b) w in
    match buckets (w_s3 w) !! b with
    | Some _ => (Err (sysError "BucketAlreadyOwnedByYou" "BucketAlreadyOwnedByYou"), w1)
    | None =>
        (Ok tt,
         set_s3 (λ s, {| buckets := <[b := ∅]> (buckets s); refused := refused s |}) w1)
    end.

(** The keys of a bucket as a listing returns them: those with the given
    prefix, in the order of their bytes. *)
Definition list_keys (objs : gmap string bytes) (prefix : string) : list string :=
  merge_sort String.le (List.filter (String.prefix prefix) (map fst (map_to_list objs))).

(** [listObjectsV2({Bucket, MaxKeys, Prefix})]: the keys of [Contents]. *)
Definition listObjectsV2 (b : string) (maxKeys : nat) (prefix : string) : M (list string) :=
  λ w,
    let w1 := emit (S3ListObjectsV2 b maxKeys prefix) w in
    match buckets (w_s3 w) !! b with
    | Some objs => (Ok (take maxKeys (list_keys objs prefix)), w1)
    | None => (Err (sysError "NoSuchBucket" "NoSuchBucket"), w1)
    end.

(** [upload({Body, Bucket, Key, ContentMD5})]: the service refuses a body
    that does not match the digest sent with it. *)
Definition upload (body : bytes) (b key contentMD5 : string) : M unit :=
  λ w,
    let w1 := emit (S3Upload b key contentMD5) w in
    match buckets (w_s3 w) !! b with
    | Some objs =>
        if bool_decide (contentMD5 = to_base64 (md5 body)) then
          (Ok tt,
           set_s3 (λ s, {| buckets := <[b := <[key := body]> objs]> (buckets s);
                           refused := refused s |}) w1)
        else (Err (sysError "BadDigest" "BadDigest"), w1)
    | None => (Err (sysError "NoSuchBucket" "NoSuchBucket"), w1)
    end.

(** ** [packageZipS3] *)

Definition defaultBucket : string := "aws-lambda-upload".

Record IS3Opts := {
  collectOpts : ICollectOpts;
  region : option string;
  s3Bucket : option string;
  s3Prefix : option string;
  s3EndpointUrl : option string;
}.

Record IS3Location := {
  bucket : string;
  key : string;
}.

(** Lines 189-202: check the bucket, and create it if needed. *)
Definition ensure_bucket (s3Bucket : string) : M unit :=
  try_catch
    (headBucket s3Bucket >>
     logger_debug ("Bucket s3://" +:+ s3Bucket +:+ " exists"))
    (λ err,
       if bool_decide (e_code err = "Forbidden") then
         throw (mkError ("Can't read s3://" +:+ s3Bucket +:+
                         ": grant AWS permissions or change --s3-bucket"))
       else if bool_decide (e_code err ≠ "NotFound") then throw err
       else
         logger_info ("Bucket s3://" +:+ s3Bucket +:+ " missing; creating") >>
         createBucket s3Bucket).

(** Lines 208-212: the key of an archive. *)
Definition s3_key (s3Prefix : string) (zipData : bytes) : string :=
  let checksumHex := to_hex (md5 zipData) in
  let prefix :=
    if truthy (Some s3Prefix) && negb (ends_with_slash s3Prefix)
    then s3Prefix +:+ "/" else or_default (Some s3Prefix) EmptyString in
  prefix +:+ checksumHex +:+ ".zip".

(** Lines 207-225: upload the archive unless its key is already there. *)
Definition upload_zip (s3Bucket s3Prefix : string) (zipData : bytes) : M IS3Location :=
  let checksumB64 := to_base64 (md5 zipData) in
  let key := s3_key s3Prefix zipData in
  logger_debug ("Uploading zipped data to s3://" +:+ s3Bucket +:+ "/" +:+ key) >>
  let* Contents := listObjectsV2 s3Bucket 1 key in
  let exists_ :=
    match Contents with
    | k0 :: _ => bool_decide (k0 = key)
    | [] => false
    end in
  (if exists_ then
     logger_info ("s3://" +:+ s3Bucket +:+ "/" +:+ key +:+ " already exists, skipping upload")
   else
     upload zipData s3Bucket key checksumB64 >>
     logger_info ("s3://" +:+ s3Bucket +:+ "/" +:+ key +:+ " uploaded")) >>
  ret {| bucket := s3Bucket; key := key |}.

Definition packageZipS3 (startPath : string) (options : IS3Opts) : M IS3Location :=
  let s3Bucket := or_default (s3Bucket options) defaultBucket in
  let s3Prefix := or_default (s3Prefix options) EmptyString in
  logger_info ("Packaging " +:+ startPath +:+ " for " +:+ js_String (region options) +:+
               " s3://" +:+ s3Bucket +:+ "/" +:+ s3Prefix +:+ "...") >>
  ensure_bucket s3Bucket >>
  let* tmpPath := _makeTmpZipFile startPath (collectOpts options) in
  let* zipData := readFile tmpPath in
  upload_zip s3Bucket s3Prefix zipData.

(** ** Templates *)

Definition parseTemplate (text ext : string) : result template :=
  match JSON_parse text with
  | Ok v => Ok v
  | Err e1 =>
      if bool_decide (ext = "json") then
        Err (mkError ("Unable to parse JSON template: " +:+ err_to_string e1))
      else
        match yamlParse text with
        | Ok v => Ok v
        | Err e2 => Err (mkError ("Unable to parse YAML template: " +:+ err_to_string e2))
        end
  end.

(** Lines 285-286 of [cloudformationPackage]: read and parse the template. *)
Definition cloudformationPackage_template (templatePath : string) : M template :=
  let* templateText := readFile templatePath in
  match parseTemplate templateText (Path.extname templatePath) with
  | Ok v => ret v
  | Err e => throw e
  end.

End Program.

(** ** Vocabulary of the statements *)

(** A segment that [normalize] keeps as it is. *)
Definition normal (s : string) : Prop := s ≠ EmptyString ∧ s ≠ "." ∧ s ≠ "..".

Definition key_le {A} (key : A → string) (x y : A) : Prop := String.le (key x) (key y).

Fixpoint no_dot (s : string) : bool :=
  match s with
  | EmptyString => true
  | String c s' => negb (is_dot c) && no_dot s'
  end.

(** An element of the stack of [fsWalk] with the tree it stands for: the
    path names that tree in the directory structure [sk], and the stats
    agree with it on the kind. *)
Definition item_ok (c : list string) (sk : node) (it : string * Stats * node) : Prop :=
  it.1.1 ≠ EmptyString ∧
  lookup_node (Path.resolve_segs c it.1.1) sk = Some it.2 ∧
  st_isDirectory it.1.2 = is_dir it.2 ∧
  wf_node it.2 = true.

Definition stat_of_path (w : World) (q : string) : Stats :=
  stats_of (default (File meta0 EmptyString) (node_at w q)).


Definition mtime_at (w : World) (q : string) : option Z :=
  (λ t, mtime (meta_of t)) <$> node_at w q.

(** What a path holds: nothing, a directory, or a file with its data. *)
Definition obs (t : node) : option bytes :=
  match t with File _ d => Some d | Dir _ _ => None end.

Definition entry_at (w : World) (q : string) : option (option bytes) :=
  obs <$> node_at w q.

(** Everything but the file system and the trace is the same. *)
Definition same_process (w w' : World) : Prop :=
  w_cwd w' = w_cwd w ∧ w_umask w' = w_umask w ∧ w_NODE_PATH w' = w_NODE_PATH w ∧
  w_tmp w' = w_tmp w ∧ w_clock w' = w_clock w ∧ w_cache w' = w_cache w ∧
  w_browserifyArgs w' = w_browserifyArgs w ∧ w_s3 w' = w_s3 w.

(** The cache, the counter of [tmp], the working directory and the mask
    are the same, and the trace has only grown. *)
Definition frame (w w' : World) : Prop :=
  w_cache w' = w_cache w ∧ w_tmp w' = w_tmp w ∧ w_cwd w' = w_cwd w ∧
  w_umask w' = w_umask w ∧ w_s3 w' = w_s3 w ∧
  ∃ evs, w_trace w' = w_trace w ++ evs.

Definition cb_events (vs : list (string * bool)) : list Event :=
  map (λ pd, CallCb pd.1 pd.2) vs.

(** The staging directory of a run that starts in [w]. *)
Definition stage_dir (w : World) : string :=
  tmp_path (tmp_name "aws-lambda-" (w_tmp w) EmptyString).

(** The stub as the archive shows it: an existing file of that name keeps
    its mode. *)
Definition stub_file_view (fmode : N) (old : option node) (text : bytes) : node :=
  File {| mode := match old with Some (File m _) => mode m | _ => fmode end;
          atime := 0; mtime := 0 |} text.

(** The staged tree, times left out, after the stub step. *)
Definition stub_view (p : string) (cwd : list string) (fmode : N) (cv : node) : node :=
  if bool_decide (Path.dirname p ≠ ".") then
    let start := Path.parse p in
    let n := Path.name start +:+ ".js" in
    let text :=
      stub_text (Path.relative cwd EmptyString
                   (Path.join (Path.dir start) (Path.name start))) in
    match cv with
    | Dir dm kids => Dir dm (set_child n (stub_file_view fmode (child n kids) text) kids)
    | File _ _ => cv
    end
  else cv.

(** The error thrown for a bucket that may not be read. *)
Definition forbidden_error (b : string) : JsError :=
  mkError ("Can't read s3://" +:+ b +:+ ": grant AWS permissions or change --s3-bucket").

Section Vocabulary.
Context `{Externals}.

(** The run of [_makeTmpZipFile] up to the return of the collector. *)
Definition collect_world (startPath : string) (options : ICollectOpts)
  : World → result unit * World :=
  let* args := collect_args options in
  let* stageDir := tmp_dir "aws-lambda-" in
  logger_debug ("Collecting files from " +:+ startPath +:+ " in " +:+ stageDir) >>
  match nodePath options with
  | Some v => modify (env_assign_NODE_PATH (Some v))
  | None => ret tt
  end >>
  collectJsDeps (["--outdir"; stageDir] ++ args ++ [startPath]).

End Vocabulary.

(** ** Fixtures

    A collector that copies a fixed list of files, a [zip] that writes
    down what it is given, and the tree of [test/fixtures]. *)

Module Fixture.

Definition file (now : Z) (data : bytes) : node :=
  File {| mode := 420; atime := now; mtime := now |} data.

Definition stage (now : Z) (outdir : list string) (files : list (list string * bytes))
    (fs : node) : node :=
  fold_left (λ t f, put_node now (outdir ++ f.1) (file now f.2) t) files fs.

(** The files are written with the time found on the output directory, so
    that two runs leave different times. *)
Definition copy_collector (deps : string → option (list (list string * bytes)))
    (argv : list string) (np : option string) (cwd : list string) (fs : node)
  : result unit * node :=
  match argv, last argv with
  | _ :: outdir :: _, Some entry =>
      match deps entry with
      | Some files =>
          let out := Path.resolve_segs cwd outdir in
          let now := from_option (λ t, mtime (meta_of t)) 0%Z (lookup_node out fs) in
          (Ok tt, stage now out files fs)
      | None => (Err (mkError ("Cannot find module from " +:+ entry)), fs)
      end
  | _, _ => (Err (mkError "usage"), fs)
  end.

Fixpoint listing (pre : string) (kids : list (string * node)) (fuel : nat) : string :=
  match fuel with
  | O => EmptyString
  | S fuel' =>
      String.concat EmptyString
        (map (λ nk : string * node,
           match nk.2 with
           | File m d =>
               pre +:+ nk.1 +:+ "@" +:+ string_of_Z (mtime m) +:+ "=" +:+ d +:+ ";"
           | Dir m ks =>
               pre +:+ nk.1 +:+ "/@" +:+ string_of_Z (mtime m) +:+ ";" +:+
               listing (pre +:+ nk.1 +:+ "/") ks fuel'
           end) kids)
  end.

Definition listing_zip (kids : list (string * node)) : Z * bytes :=
  (0%Z, listing EmptyString kids 8).

Definition brace_JSON_parse (text : string) : result string :=
  if String.prefix "{" text then Ok text
  else Err {| e_name := "SyntaxError"; e_code := EmptyString;
              e_message := "Unexpected token" |}.

Definition plain_yamlParse (text : string) : result string :=
  if String.prefix "%" text
  then Err {| e_name := "YAMLException"; e_code := EmptyString;
              e_message := "bad directive" |}
  else Ok text.

Definition externals (deps : string → option (list (list string * bytes)))
  : Externals :=
  {| collector := copy_collector deps;
     zip_program := listing_zip;
     tsify_path := "/work/node_modules/tsify/index.js";
     md5 := λ d, string_of_nat (String.length d);
     to_hex := λ d, "md5x" +:+ d;
     to_base64 := λ d, "md5b" +:+ d;
     template := string;
     JSON_parse := brace_JSON_parse;
     yamlParse := plain_yamlParse |}.

(** The dependencies of the entries used below. *)
Definition deps (entry : string) : option (list (list string * bytes)) :=
  if bool_decide (entry = "lib/bar.js") then
    Some [(["lib"; "bar.js"], "exports.bar = require('../bar');");
          (["bar.js"], "exports.top = 1;");
          (["node_modules"; "dep2"; "world.js"], "exports.world = 2;")]
  else if bool_decide (entry = "foo.js") then
    Some [(["foo.js"], "require('./lib/dep');"); (["lib"; "dep.js"], "exports.dep = 3;")]
  else if bool_decide (entry = "/work/index.js") then
    Some [(["index.js"], "exports.handler = 4;")]
  else None.

Definition fx : Externals := externals deps.

Definition dir (kids : list (string * node)) : node := Dir (dir_meta 5) kids.

(** [test/fixtures], its entries as a directory may list them. *)
Definition fixtures : node :=
  dir [("tsconfig.json", file 1 "{}");
       ("node_modules",
        dir [("dep3", dir [("package.json", file 2 "{}"); ("bye.js", file 2 "bye")]);
             ("dep1", dir [("hello.js", file 3 "hello"); ("package.json", file 3 "{}")]);
             ("dep2", dir [("world.js", file 4 "world"); ("package.json", file 4 "{}")])]);
       ("foo_ts.ts", file 6 "ts");
       ("lib",
        dir [("lambda_dep.js", file 7 "dep"); ("bar.js", file 7 "bar");
             ("lambda.js", file 8 "lambda"); ("baz_ts.ts", file 8 "baz")]);
       ("foo.js", file 9 "foo");
       ("cfn.yml", file 9 "Resources:");
       ("foo_abs.js", file 9 "abs")].

Definition opts (use_cache : bool) : ICollectOpts :=
  {| browserifyArgs := false; tsconfig := None; nodePath := None; cache := use_cache |}.

Definition s3opts (use_cache : bool) (prefix : option string) : IS3Opts :=
  {| collectOpts := opts use_cache; region := None; s3Bucket := None;
     s3Prefix := prefix; s3EndpointUrl := None |}.

Definition no_s3 : S3 := {| buckets := ∅; refused := ∅ |}.

(** A process in [/work], with [NODE_PATH] as given. *)
Definition world (np : option string) (tmp : nat) (clock : Z) : World :=
  {| w_fs := dir [("work", dir [("test", dir [("fixtures", fixtures)])])];
     w_cwd := ["work"]; w_umask := 18; w_NODE_PATH := np; w_tmp := tmp;
     w_clock := clock; w_cache := ∅; w_browserifyArgs := []; w_s3 := no_s3;
     w_trace := [] |}.

(** The process when the collector has returned, in a run on [entry]. *)
Definition staged (entry : string) (np : option string) (tmp : nat) (clock : Z) : World :=
  (@collect_world fx entry (opts false) (world np tmp clock)).2.

Definition with_s3 (s : S3) (w : World) : World := set_s3 (λ _, s) w.

Definition with_cache (c : gmap string string) (w : World) : World := set_cache (λ _, c) w.

End Fixture.

(** * Properties *)

(** ** The [path] module on the paths of the test suite *)

Example dirname_nested : Path.dirname "lib/bar.js" = "lib".
Proof. reflexivity. Qed.
Example dirname_top : Path.dirname "foo.js" = ".".
Proof. reflexivity. Qed.
Example dirname_dot_slash : Path.dirname "./foo.js" = ".".
Proof. reflexivity. Qed.
Example dirname_abs : Path.dirname "/work/index.js" = "/work".
Proof. reflexivity. Qed.
Example parse_nested :
  Path.parse "lib/baz_ts.ts" =
  {| Path.root := EmptyString; Path.dir := "lib"; Path.base := "baz_ts.ts";
     Path.ext := ".ts"; Path.name := "baz_ts" |}.
Proof. reflexivity. Qed.
Example parse_abs :
  Path.parse "/work/index.js" =
  {| Path.root := "/"; Path.dir := "/work"; Path.base := "index.js";
     Path.ext := ".js"; Path.name := "index" |}.
Proof. reflexivity. Qed.
Example extname_json : Path.extname "stack/template.json" = ".json".
Proof. reflexivity. Qed.
Example extname_hidden : Path.extname "stack/.json" = EmptyString.
Proof. reflexivity. Qed.
Example join_dot : Path.join "." "foo" = "foo".
Proof. reflexivity. Qed.
Example join_up : Path.join "lib/.." "foo" = "foo".
Proof. reflexivity. Qed.
Example join_tmp : Path.join "/tmp/aws-lambda-0" "bar.js" = "/tmp/aws-lambda-0/bar.js".
Proof. reflexivity. Qed.
Example relative_cwd :
  Path.relative ["work"] EmptyString "/work/lib/bar" = "lib/bar".
Proof. reflexivity. Qed.
Example relative_up :
  Path.relative ["work"; "sub"] EmptyString "../x/foo" = "../x/foo".
Proof. reflexivity. Qed.

(** ** Strings *)

Lemma append_nil_l (s : string) : EmptyString +:+ s = s.
Proof. reflexivity. Qed.

Lemma append_cons (c : ascii) (a b : string) : String c a +:+ b = String c (a +:+ b).
Proof. reflexivity. Qed.

Lemma append_nil_r (s : string) : s +:+ EmptyString = s.
Proof. induction s as [|c s IH]; [done | by rewrite append_cons, IH]. Qed.

Lemma append_assoc (a b c : string) : (a +:+ b) +:+ c = a +:+ (b +:+ c).
Proof. induction a as [|x a IH]; [done | by rewrite !append_cons, IH]. Qed.

Lemma chars_app (a b : string) : chars (a +:+ b) = chars a ++ chars b.
Proof. induction a as [|x a IH]; [done | rewrite append_cons; simpl; by rewrite IH]. Qed.

Lemma str_chars (s : string) : str (chars s) = s.
Proof. apply string_of_list_ascii_of_string. Qed.

Lemma chars_str (l : list ascii) : chars (str l) = l.
Proof. apply list_ascii_of_string_of_list_ascii. Qed.

Lemma no_slash_app (a b : string) :
  no_slash (a +:+ b) = no_slash a && no_slash b.
Proof.
  induction a as [|x a IH]; [done |].
  rewrite append_cons. simpl. rewrite IH. by rewrite andb_assoc.
Qed.

Lemma no_slash_chars (s : string) :
  no_slash s = true ↔ Forall (λ c, is_slash c = false) (chars s).
Proof.
  induction s as [|x s IH]; simpl.
  - split; [constructor | done].
  - rewrite andb_true_iff, negb_true_iff, IH. split.
    + intros [??]. by constructor.
    + by inversion 1.
Qed.

Lemma starts_with_slash_app (a b : string) :
  a ≠ EmptyString → starts_with_slash (a +:+ b) = starts_with_slash a.
Proof. by destruct a. Qed.

Lemma ends_with_slash_app (a b : string) :
  b ≠ EmptyString → ends_with_slash (a +:+ b) = ends_with_slash b.
Proof.
  intros Hb. unfold ends_with_slash. rewrite chars_app, rev_app_distr.
  destruct (rev (chars b)) as [|c l] eqn:E; [|done].
  apply (f_equal (@rev _)) in E. rewrite rev_involutive in E. simpl in E.
  apply (f_equal str) in E. rewrite str_chars in E. done.
Qed.

Lemma ends_with_slash_no_slash (s : string) :
  no_slash s = true → ends_with_slash s = false.
Proof.
  rewrite no_slash_chars. unfold ends_with_slash. intros Hs.
  destruct (rev (chars s)) as [|c l] eqn:E; [done |].
  assert (c ∈ chars s) as Hc.
  { apply list_elem_of_In, in_rev. rewrite E. by left. }
  by apply (proj1 (Forall_forall _ _) Hs).
Qed.

(** ** Segments *)

Lemma split_slash_app (a b : string) :
  Path.split_slash (a +:+ "/" +:+ b) = Path.split_slash a ++ Path.split_slash b.
Proof.
  induction a as [|c a IH]; [done |].
  rewrite append_cons. simpl. rewrite IH.
  destruct (is_slash c); [done |].
  destruct (Path.split_slash a) as [|h t] eqn:E; [|done].
  by destruct a; simpl in E; repeat case_match.
Qed.

Lemma split_slash_no_slash (s : string) :
  no_slash s = true → Path.split_slash s = [s].
Proof.
  induction s as [|c s IH]; [done |]. simpl.
  rewrite andb_true_iff, negb_true_iff. intros [-> Hs]. by rewrite IH.
Qed.

Lemma split_slash_Forall (s : string) :
  Forall (λ x, no_slash x = true) (Path.split_slash s).
Proof.
  induction s as [|c s IH]; simpl.
  - by repeat constructor.
  - destruct (is_slash c) eqn:Ec; [by constructor |].
    destruct (Path.split_slash s) as [|h t]; [repeat constructor; simpl; by rewrite Ec |].
    inversion IH; subst. constructor; [|done]. simpl. by rewrite Ec.
Qed.

Lemma split_join_slash (segs : list string) :
  segs ≠ [] → Forall (λ x, no_slash x = true) segs →
  Path.split_slash (Path.join_slash segs) = segs.
Proof.
  induction segs as [|x segs IH]; [done |]. intros _ Hall.
  inversion Hall as [|?? Hx Hsegs]; subst.
  destruct segs as [|y segs]; [by apply split_slash_no_slash |].
  change (Path.join_slash (x :: y :: segs)) with (x +:+ "/" +:+ Path.join_slash (y :: segs)).
  rewrite split_slash_app, IH by done. by rewrite split_slash_no_slash.
Qed.

Lemma join_slash_starts (segs : list string) (x : string) :
  x ≠ EmptyString → no_slash x = true →
  starts_with_slash (Path.join_slash (x :: segs)) = false.
Proof.
  intros Hx Hns. destruct x as [|c x]; [done |].
  simpl in Hns. apply andb_true_iff in Hns as [Hc _]. apply negb_true_iff in Hc.
  destruct segs; [done |].
  change (Path.join_slash (String c x :: s :: segs)) with (String c (x +:+ "/" +:+ Path.join_slash (s :: segs))).
  done.
Qed.

(** ** Normalization *)


Lemma valid_name_normal (n : string) : valid_name n = true → normal n ∧ no_slash n = true.
Proof.
  unfold valid_name, normal.
  rewrite !andb_true_iff, !negb_true_iff, !bool_decide_eq_false. tauto.
Qed.

Lemma norm_step_normal a st x : normal x → Path.norm_step a st x = x :: st.
Proof.
  intros (H1 & H2 & H3). unfold Path.norm_step.
  by rewrite !bool_decide_eq_false_2.
Qed.

Lemma norm_segs_snoc a xs n :
  normal n → Path.norm_segs a (xs ++ [n]) = Path.norm_segs a xs ++ [n].
Proof.
  intros Hn. unfold Path.norm_segs.
  rewrite fold_left_app. simpl. by rewrite norm_step_normal.
Qed.

Lemma norm_step_not_blank a st x :
  Forall (λ s, s ≠ EmptyString ∧ s ≠ ".") st →
  Forall (λ s, s ≠ EmptyString ∧ s ≠ ".") (Path.norm_step a st x).
Proof.
  intros Hst. unfold Path.norm_step.
  repeat case_bool_decide; simpl; subst; try done;
    repeat case_match; subst; try done;
    repeat first [ done | constructor | by inversion Hst ].
Qed.

Lemma fold_norm_not_blank a xs st :
  Forall (λ s, s ≠ EmptyString ∧ s ≠ ".") st →
  Forall (λ s, s ≠ EmptyString ∧ s ≠ ".") (fold_left (Path.norm_step a) xs st).
Proof.
  revert st. induction xs as [|x xs IH]; intros st Hst; [done |].
  simpl. by apply IH, norm_step_not_blank.
Qed.

Lemma norm_step_inner acc st x :
  Forall (λ s, s ≠ EmptyString ∧ s ≠ ".") acc →
  fold_left (Path.norm_step false) (rev (Path.norm_step true acc x)) st =
  Path.norm_step false (fold_left (Path.norm_step false) (rev acc) st) x.
Proof.
  intros Hacc.
  destruct (decide (x = EmptyString)) as [->|Hx1]; [done |].
  destruct (decide (x = ".")) as [->|Hx2]; [done |].
  destruct (decide (x = "..")) as [->|Hx3].
  - destruct acc as [|top rest]; [done |].
    inversion Hacc as [|?? [Ht1 Ht2] _]; subst.
    destruct (decide (top = "..")) as [->|Ht3].
    + simpl. by rewrite !fold_left_app.
    + unfold Path.norm_step at 2. simpl.
      rewrite (bool_decide_eq_false_2 (top = "..")) by done.
      rewrite fold_left_app. simpl.
      rewrite (norm_step_normal false _ top) by done.
      unfold Path.norm_step. simpl. by rewrite bool_decide_eq_false_2.
  - rewrite (norm_step_normal true) by done.
    simpl. rewrite fold_left_app. done.
Qed.

(** Resolving a normalized relative path is resolving the path itself. *)
Lemma fold_norm_inner xs : ∀ acc st,
  Forall (λ s, s ≠ EmptyString ∧ s ≠ ".") acc →
  fold_left (Path.norm_step false) (rev (fold_left (Path.norm_step true) xs acc)) st =
  fold_left (Path.norm_step false) xs (fold_left (Path.norm_step false) (rev acc) st).
Proof.
  induction xs as [|x xs IH]; intros acc st Hacc; [done |].
  simpl. rewrite IH by by apply norm_step_not_blank.
  by rewrite norm_step_inner.
Qed.

Lemma fold_norm_normal xs : ∀ st,
  Forall normal st → Forall normal (fold_left (Path.norm_step false) xs st).
Proof.
  induction xs as [|x xs IH]; intros st Hst; [done |].
  simpl. apply IH. unfold Path.norm_step.
  repeat case_bool_decide; simpl; subst; try done.
  - destruct st; [done |]. case_bool_decide; [done | by inversion Hst].
  - constructor; [|done]. unfold normal. naive_solver.
Qed.

Lemma fold_norm_id cs : ∀ st,
  Forall normal cs → fold_left (Path.norm_step false) cs st = rev cs ++ st.
Proof.
  induction cs as [|c cs IH]; intros st Hcs; [done |].
  inversion Hcs; subst. simpl.
  rewrite norm_step_normal, IH by done. by rewrite <- app_assoc.
Qed.

Lemma resolve_segs_normal cwd p : Forall normal (Path.resolve_segs cwd p).
Proof.
  unfold Path.resolve_segs, Path.norm_segs.
  apply Forall_rev, fold_norm_normal. constructor.
Qed.

(** The path of a directory entry: its shape, and the entry it names. *)
Lemma join_form (p n : string) :
  p ≠ EmptyString → valid_name n = true →
  ∃ cs, cs = Path.norm_segs (negb (starts_with_slash p)) (Path.split_slash p) ++ [n] ∧
  Path.join p n = (if starts_with_slash p then "/" else EmptyString) +:+ Path.join_slash cs ∧
  Forall (λ x, no_slash x = true) cs ∧
  Forall (λ s, s ≠ EmptyString ∧ s ≠ ".") cs ∧
  Path.join_slash cs ≠ EmptyString.
Proof.
  intros Hp Hn.
  set (cs := Path.norm_segs (negb (starts_with_slash p)) (Path.split_slash p) ++ [n]).
  exists cs. split; [done |]. apply valid_name_normal in Hn as [Hnorm Hns].
  assert (n ≠ EmptyString) as Hne by apply Hnorm.
  assert (Forall (λ x, no_slash x = true) cs) as Hall.
  { apply Forall_app. split; [|by constructor].
    unfold Path.norm_segs. apply Forall_rev.
    generalize (negb (starts_with_slash p)). intros a.
    assert (∀ xs st, Forall (λ x, no_slash x = true) xs →
              Forall (λ x, no_slash x = true) st →
              Forall (λ x, no_slash x = true) (fold_left (Path.norm_step a) xs st)) as Hf.
    { induction xs as [|x xs IH]; intros st Hxs Hst; [done |].
      inversion Hxs; subst. simpl. apply IH; [done |].
      unfold Path.norm_step. repeat case_match; try done;
        repeat first [ done | constructor | by inversion Hst ]. }
    apply Hf; [apply split_slash_Forall | constructor]. }
  assert (cs ≠ []) as Hnil.
  { unfold cs. by destruct (Path.norm_segs _ _). }
  assert (Path.join_slash cs ≠ EmptyString) as Hbody.
  { intros E. pose proof (split_join_slash _ Hnil Hall) as Hs.
    rewrite E in Hs. simpl in Hs. unfold cs in Hs.
    destruct (Path.norm_segs _ _) as [|? [|??]]; simplify_eq/=. }
  split; [|split; [done | split; [|done]]].
  - unfold Path.join. rewrite !bool_decide_eq_false_2 by done.
    unfold Path.normalize.
    assert (p +:+ "/" +:+ n ≠ EmptyString) as Hne' by by destruct p.
    rewrite bool_decide_eq_false_2 by done.
    rewrite starts_with_slash_app by done.
    rewrite <- append_assoc.
    rewrite ends_with_slash_app, ends_with_slash_no_slash by done.
    rewrite append_assoc, split_slash_app, (split_slash_no_slash n) by done.
    rewrite norm_segs_snoc by done. rewrite append_nil_r.
    fold cs. by rewrite bool_decide_eq_false_2.
  - apply Forall_app. split; [|constructor; [split; apply Hnorm | done]].
    unfold Path.norm_segs. apply Forall_rev, fold_norm_not_blank. constructor.
Qed.

Lemma join_nonempty (p n : string) :
  p ≠ EmptyString → valid_name n = true → Path.join p n ≠ EmptyString.
Proof.
  intros Hp Hn. destruct (join_form p n Hp Hn) as (cs & _ & -> & _ & _ & Hb).
  destruct (starts_with_slash p); [done |]. by rewrite append_nil_l.
Qed.

Lemma resolve_join (cwd : list string) (p n : string) :
  p ≠ EmptyString → valid_name n = true →
  Path.resolve_segs cwd (Path.join p n) = Path.resolve_segs cwd p ++ [n].
Proof.
  intros Hp Hn. destruct (join_form p n Hp Hn) as (cs0 & -> & -> & Hall & Hnb & Hbody).
  apply valid_name_normal in Hn as [Hnorm Hns].
  unfold Path.resolve_segs at 2.
  set (a := starts_with_slash p) in *.
  set (cs := Path.norm_segs (negb a) (Path.split_slash p)) in *.
  assert (cs ++ [n] ≠ []) as Hnil by by destruct cs.
  unfold Path.resolve_segs.
  destruct a eqn:Ea.
  - change ("/" +:+ Path.join_slash (cs ++ [n]))
      with (String "/" (Path.join_slash (cs ++ [n]))).
    simpl starts_with_slash. simpl Path.split_slash.
    rewrite split_join_slash by done. simpl app.
    unfold Path.norm_segs at 1. simpl fold_left.
    change (Path.norm_step false [] EmptyString) with (@nil string).
    fold (Path.norm_segs false (cs ++ [n])).
    rewrite norm_segs_snoc by done. f_equal.
    unfold cs. simpl negb. unfold Path.norm_segs at 1.
    rewrite fold_norm_id.
    + by rewrite app_nil_r, rev_involutive.
    + apply Forall_rev, fold_norm_normal. constructor.
  - rewrite append_nil_l.
    assert (starts_with_slash (Path.join_slash (cs ++ [n])) = false) as ->.
    { destruct (cs ++ [n]) as [|x rest] eqn:E; [done |].
      inversion Hnb as [|?? [Hx _] _]; inversion Hall; subst.
      by apply join_slash_starts. }
    rewrite split_join_slash by done.
    rewrite app_assoc. rewrite norm_segs_snoc by done. f_equal.
    unfold Path.norm_segs. f_equal. rewrite !fold_left_app.
    unfold cs, Path.norm_segs. simpl negb.
    by rewrite fold_norm_inner.
Qed.

(** ** Names handed out by [tmp] *)

Lemma string_of_uint_chars (d : Decimal.uint) :
  Forall (λ c, is_slash c = false ∧ is_dot c = false) (chars (NilEmpty.string_of_uint d)).
Proof. induction d; simpl; by repeat constructor. Qed.

Lemma tmp_name_valid (n : nat) (postfix : string) :
  no_slash postfix = true →
  valid_name (tmp_name "aws-lambda-" n postfix) = true.
Proof.
  intros Hpost. unfold valid_name, tmp_name.
  rewrite !no_slash_app, Hpost.
  assert (no_slash (string_of_nat n) = true) as ->.
  { apply no_slash_chars. eapply Forall_impl; [apply string_of_uint_chars |].
    by intros ? [??]. }
  done.
Qed.

Lemma resolve_tmp_path (cwd : list string) (nm : string) :
  valid_name nm = true → Path.resolve_segs cwd (tmp_path nm) = ["tmp"; nm].
Proof.
  intros Hn. pose proof (valid_name_normal _ Hn) as [Hnorm Hns].
  unfold tmp_path, Path.resolve_segs.
  change ("/tmp/" +:+ nm) with (String "/" ("tmp" +:+ "/" +:+ nm)).
  change (starts_with_slash (String "/" ("tmp" +:+ "/" +:+ nm))) with true.
  change (Path.split_slash (String "/" ("tmp" +:+ "/" +:+ nm)))
    with (EmptyString :: Path.split_slash ("tmp" +:+ "/" +:+ nm)).
  rewrite split_slash_app, (split_slash_no_slash nm) by done.
  unfold Path.norm_segs. simpl.
  change (Path.norm_step false [] EmptyString) with (@nil string).
  change (Path.norm_step false [] "tmp") with ["tmp"].
  by rewrite norm_step_normal.
Qed.

Lemma tmp_path_nonempty (nm : string) : tmp_path nm ≠ EmptyString.
Proof. done. Qed.

(** ** Names and extensions *)

Lemma take_while_Forall {A} (f : A → bool) (l : list A) :
  Forall (λ x, f x = true) (take_while f l).
Proof.
  induction l as [|x l IH]; simpl; [constructor |].
  destruct (f x) eqn:E; by constructor.
Qed.

Lemma take_drop_while {A} (f : A → bool) (l : list A) :
  take_while f l ++ drop_while f l = l.
Proof.
  induction l as [|x l IH]; simpl; [done |].
  destruct (f x); simpl; [by rewrite IH | done].
Qed.

Lemma split_ext_shape (b : list ascii) :
  (Path.split_ext b).2 = EmptyString ∨ ∃ r, (Path.split_ext b).2 = String dot r.
Proof.
  unfold Path.split_ext.
  destruct (drop_while _ b); [by left |].
  repeat case_match; simpl; eauto.
Qed.

Lemma extname_shape (p : string) :
  Path.extname p = EmptyString ∨ ∃ r, Path.extname p = String dot r.
Proof. apply split_ext_shape. Qed.

Lemma split_ext_name_no_slash (b : list ascii) :
  Forall (λ c, negb (is_slash c) = true) b →
  no_slash (Path.split_ext b).1 = true.
Proof.
  intros Hb.
  assert (no_slash (str (rev b)) = true) as Hall.
  { apply no_slash_chars. rewrite chars_str. apply Forall_rev.
    eapply Forall_impl; [done |]. intros c. by rewrite negb_true_iff. }
  unfold Path.split_ext.
  destruct (drop_while _ b) as [|d name_rev] eqn:E; [done |].
  repeat case_match; simpl; try done.
  apply no_slash_chars. rewrite chars_str. apply Forall_rev.
  assert (Forall (λ c, negb (is_slash c) = true) (d :: name_rev)) as Hd.
  { rewrite <- E. rewrite <- (take_drop_while (λ c, negb (is_dot c)) b) in Hb.
    by apply Forall_app in Hb as [_ ?]. }
  inversion Hd; subst.
  eapply Forall_impl; [done |]. intros c. by rewrite negb_true_iff.
Qed.

Lemma parse_name_no_slash (p : string) : no_slash (Path.name (Path.parse p)) = true.
Proof.
  unfold Path.parse. destruct (chars p) as [|c0 rest]; [done |].
  match goal with
  | |- context [Path.split_ext ?b] =>
      pose proof (split_ext_name_no_slash b (take_while_Forall _ _)) as Hn;
      destruct (Path.split_ext b) as [nm ex]
  end.
  done.
Qed.

Lemma valid_name_js (s : string) : no_slash s = true → valid_name (s +:+ ".js") = true.
Proof.
  intros Hs. unfold valid_name. rewrite no_slash_app, Hs.
  destruct s as [|a [|b [|c s]]]; try done.
  all: rewrite !append_cons; simpl; rewrite ?andb_true_r;
    rewrite !andb_true_iff, !negb_true_iff, !bool_decide_eq_false; done.
Qed.

(** ** Sorting *)

Section Sorting.
Context {A : Type} (key : A → string).


Lemma insert_on_perm (x : A) (l : list A) : insert_on key x l ≡ₚ x :: l.
Proof.
  induction l as [|y l IH]; simpl; [done |].
  case_bool_decide; [done |]. rewrite IH. apply Permutation_swap.
Qed.

Lemma sort_on_perm (l : list A) : sort_on key l ≡ₚ l.
Proof.
  induction l as [|x l IH]; simpl; [done |].
  by rewrite insert_on_perm, IH.
Qed.

Lemma insert_on_sorted (x : A) (l : list A) :
  Sorted (key_le key) l → Sorted (key_le key) (insert_on key x l).
Proof.
  induction l as [|y l IH]; intros Hs; simpl.
  - by repeat constructor.
  - inversion Hs as [|?? Hl Hhd]; subst.
    case_bool_decide as Hle.
    + constructor; [done | by constructor].
    + constructor; [by apply IH |].
      assert (key_le key y x) as Hyx.
      { destruct (total String.le (key x) (key y)); [done | done]. }
      destruct l as [|z l]; simpl; [by constructor |].
      case_bool_decide; constructor; [done | by inversion Hhd].
Qed.

Lemma sort_on_sorted (l : list A) : Sorted (key_le key) (sort_on key l).
Proof.
  induction l as [|x l IH]; simpl; [constructor | by apply insert_on_sorted].
Qed.

End Sorting.

Lemma insert_on_map {A B} (keyA : A → string) (keyB : B → string) (f : A → B) x l :
  (∀ a, keyB (f a) = keyA a) →
  insert_on keyB (f x) (map f l) = map f (insert_on keyA x l).
Proof.
  intros Hk. induction l as [|y l IH]; simpl; [done |].
  rewrite !Hk. case_bool_decide; simpl; [done | by rewrite IH].
Qed.

Lemma sort_on_map {A B} (keyA : A → string) (keyB : B → string) (f : A → B) l :
  (∀ a, keyB (f a) = keyA a) →
  sort_on keyB (map f l) = map f (sort_on keyA l).
Proof.
  intros Hk. induction l as [|x l IH]; simpl; [done |].
  by rewrite IH, (insert_on_map keyA keyB).
Qed.

Lemma js_sort_names {A} (l : list (string * A)) :
  js_sort (map fst l) = map fst (sort_on fst l).
Proof. unfold js_sort. by apply sort_on_map. Qed.

(** ** Trees *)

Lemma node_ind' (P : node → Prop) :
  (∀ m d, P (File m d)) →
  (∀ m kids, Forall (λ nk, P nk.2) kids → P (Dir m kids)) →
  ∀ t, P t.
Proof.
  intros HF HD. fix IH 1. intros [m d | m kids]; [apply HF |].
  apply HD. induction kids as [|nk kids IHk]; constructor; [apply IH | apply IHk].
Qed.

Lemma child_map (g : node → node) n kids :
  child n (map (λ nk, (nk.1, g nk.2)) kids) = g <$> child n kids.
Proof.
  induction kids as [|[n' k] kids IH]; simpl; [done |].
  case_bool_decide; [done | apply IH].
Qed.

Lemma lookup_node_map fm fd cs : ∀ t,
  lookup_node cs (node_map fm fd t) = node_map fm fd <$> lookup_node cs t.
Proof.
  induction cs as [|c cs IH]; intros t; [done |].
  destruct t as [m d | m kids]; simpl; [done |].
  rewrite child_map. destruct (child c kids); simpl; [apply IH | done].
Qed.

Lemma lookup_node_snoc cs n : ∀ t,
  lookup_node (cs ++ [n]) t = lookup_node cs t ≫= λ d, child n (kids_of d).
Proof.
  induction cs as [|c cs IH]; intros t; simpl.
  - destruct t; simpl; [done |]. by destruct (child n kids).
  - destruct t as [|m kids]; [done |]. destruct (child c kids); [apply IH | done].
Qed.

Lemma nodup_names_NoDup ns : nodup_names ns = true → NoDup ns.
Proof.
  induction ns as [|n ns IH]; simpl; [constructor |].
  rewrite andb_true_iff, negb_true_iff, bool_decide_eq_false.
  intros [??]. constructor; auto.
Qed.

Lemma NoDup_nodup_names ns : NoDup ns → nodup_names ns = true.
Proof.
  induction 1; simpl; [done |].
  rewrite andb_true_iff, negb_true_iff, bool_decide_eq_false. auto.
Qed.

Lemma child_elem n k kids :
  NoDup (map fst kids) → (n, k) ∈ kids → child n kids = Some k.
Proof.
  induction kids as [|[n' k'] kids IH]; simpl; intros Hnd Hin.
  - by apply elem_of_nil in Hin.
  - inversion Hnd as [|?? Hn' Hnd']; subst.
    apply elem_of_cons in Hin as [Heq | Hin].
    + simplify_eq. by rewrite bool_decide_eq_true_2.
    + case_bool_decide; [|by apply IH]. subst.
      exfalso. apply Hn'. apply list_elem_of_fmap. by exists (n, k).
Qed.

Lemma child_Some_elem n k kids : child n kids = Some k → (n, k) ∈ kids.
Proof.
  induction kids as [|[n' k'] kids IH]; simpl; [done |].
  case_bool_decide; intros ?; simplify_eq; [left | right; auto].
Qed.

Lemma wf_node_Dir m kids :
  wf_node (Dir m kids) = true →
  NoDup (map fst kids) ∧
  Forall (λ nk, valid_name nk.1 = true ∧ wf_node nk.2 = true) kids.
Proof.
  simpl. rewrite andb_true_iff. intros [Hnd Hall]. split.
  - by apply nodup_names_NoDup.
  - apply Forall_forall. intros nk Hin.
    rewrite forallb_forall in Hall. apply andb_true_iff, Hall.
    by apply list_elem_of_In.
Qed.

Lemma map_map_fst {A B} (g : A → B) (kids : list (string * A)) :
  map fst (map (λ nk, (nk.1, g nk.2)) kids) = map fst kids.
Proof. rewrite map_map. by apply map_ext. Qed.

Lemma node_size_map fm fd t : node_size (node_map fm fd t) = node_size t.
Proof.
  induction t as [|m kids IH] using node_ind'; simpl; [done |].
  f_equal. f_equal. rewrite map_map. simpl.
  apply map_ext_Forall. eapply Forall_impl; [done |]. by intros [??] ?.
Qed.

Lemma wf_node_map fm fd t : wf_node (node_map fm fd t) = wf_node t.
Proof.
  induction t as [|m kids IH] using node_ind'; simpl; [done |].
  rewrite map_map_fst. f_equal.
  induction IH as [|[n k] kids Hk _ IHk]; simpl; [done |].
  simpl in Hk. by rewrite Hk, IHk.
Qed.

Lemma flat_map_map {A B C} (f : A → B) (g : B → list C) (l : list A) :
  flat_map g (map f l) = flat_map (λ x, g (f x)) l.
Proof. induction l as [|x l IH]; simpl; [done | by rewrite IH]. Qed.

Lemma flat_map_ext_Forall {A B} (f g : A → list B) (l : list A) :
  Forall (λ x, f x = g x) l → flat_map f l = flat_map g l.
Proof. induction 1 as [|x l E _ IH]; simpl; [done | by rewrite E, IH]. Qed.

(** The preorder of a directory, read off its sorted entries. *)
Lemma preorder_Dir m kids p :
  preorder (Dir m kids) p =
  (p, true) :: flat_map (λ nk, preorder nk.2 (Path.join p nk.1)) (sort_on fst kids).
Proof.
  simpl. f_equal.
  rewrite (sort_on_map fst fst (λ nk : string * node, (nk.1, preorder nk.2))) by done.
  by rewrite flat_map_map.
Qed.

Lemma preorder_map fm fd t : ∀ p, preorder (node_map fm fd t) p = preorder t p.
Proof.
  induction t as [|m kids IH] using node_ind'; intros p; [done |].
  change (node_map fm fd (Dir m kids))
    with (Dir (fm m) (map (λ nk, (nk.1, node_map fm fd nk.2)) kids)).
  rewrite !preorder_Dir. f_equal.
  rewrite (sort_on_map fst fst (λ nk : string * node, (nk.1, node_map fm fd nk.2))) by done.
  rewrite flat_map_map. apply flat_map_ext_Forall.
  rewrite (sort_on_perm fst kids).
  eapply Forall_impl; [done |]. intros [n k] E. simpl in *. apply E.
Qed.

(** ** The loop of [fsWalk] *)

Lemma node_size_pos t : 0 < node_size t.
Proof. destruct t; simpl; lia. Qed.

Lemma is_dir_map fm fd t : is_dir (node_map fm fd t) = is_dir t.
Proof. by destruct t. Qed.

Lemma node_at_shape (w : World) (p : string) (k : node) :
  p ≠ EmptyString →
  lookup_node (Path.resolve_segs (w_cwd w) p) (shape (w_fs w)) = Some k →
  ∃ t, node_at w p = Some t ∧ shape t = k.
Proof.
  intros Hp Hk. unfold node_at. rewrite bool_decide_eq_false_2 by done.
  unfold shape in Hk. rewrite lookup_node_map in Hk.
  destruct (lookup_node _ (w_fs w)) as [t|]; simplify_eq/=. eauto.
Qed.

Lemma mapM_stat (w : World) (paths : list string) :
  Forall (λ q, is_Some (node_at w q)) paths →
  mapM stat paths w = (Ok (map (stat_of_path w) paths), w).
Proof.
  induction 1 as [|q paths [t Hq] _ IH]; [done |].
  simpl. unfold bind at 1. unfold stat at 1. rewrite Hq.
  unfold bind at 1. rewrite IH. unfold ret, stat_of_path. by rewrite Hq.
Qed.

Lemma zip_map_self {A B} (f : A → B) (l : list A) :
  zip l (map f l) = map (λ x, (x, f x)) l.
Proof. induction l as [|x l IH]; simpl; [done | by rewrite IH]. Qed.

Lemma sum_list_perm (l1 l2 : list nat) : l1 ≡ₚ l2 → sum_list l1 = sum_list l2.
Proof. induction 1; simpl; lia. Qed.

Section Walk.
Variables (c : list string) (sk : node).
Variable Inv : list (string * bool) → World → Prop.
Variable cb : Callback.

Hypothesis Inv_frame : ∀ vs w, Inv vs w → shape (w_fs w) = sk ∧ w_cwd w = c.
Hypothesis cb_step : ∀ vs w it,
  Inv vs w → item_ok c sk it →
  ∃ w', cb it.1.1 it.1.2 (emit (CallCb it.1.1 (st_isDirectory it.1.2)) w) = (Ok tt, w') ∧
        Inv (vs ++ [(it.1.1, st_isDirectory it.1.2)]) w'.

Lemma fsWalk_loop_spec : ∀ fuel items vs w,
  Forall (item_ok c sk) items →
  sum_list (map (λ it : string * Stats * node, node_size it.2) items) ≤ fuel →
  Inv vs w →
  ∃ w', fsWalk_loop fuel cb (map fst items) w = Some (Ok tt, w') ∧
        Inv (vs ++ flat_map (λ it : string * Stats * node, preorder it.2 it.1.1) items) w'.
Proof.
  induction fuel as [|fuel IH]; intros items vs w Hitems Hfuel HInv.
  - destruct items as [|[[p st] k] items].
    + exists w. simpl. by rewrite app_nil_r.
    + simpl in Hfuel. pose proof (node_size_pos k). lia.
  - destruct items as [|[[p st] k] items].
    + exists w. simpl. by rewrite app_nil_r.
    + inversion Hitems as [|?? Hit Hrest]; subst.
      destruct (cb_step vs w _ HInv Hit) as (w1 & Hcb & HInv1).
      destruct Hit as (Hp & Hk & Hd & Hwf). simpl in *.
      rewrite Hcb. rewrite Hd in *.
      destruct (Inv_frame _ _ HInv1) as [Hsk Hc].
      destruct k as [m d | m kids]; simpl is_dir in *; cbv iota.
      * simpl in Hfuel. destruct (IH items (vs ++ [(p, false)]) w1) as (w' & Hrun & HInv'); [done | lia | done |].
        exists w'. split; [done |]. by rewrite <- app_assoc in HInv'.
      * (* the directory is read, its entries sorted and pushed *)
        simpl in Hfuel.
        destruct (node_at_shape w1 p (Dir m kids)) as (t1 & Ht1 & Hs1);
          [done | by rewrite Hc, Hsk |].
        destruct t1 as [|m1 kids1]; [done |].
        assert (map fst kids1 = map fst kids) as Hnames.
        { unfold shape in Hs1. simpl in Hs1. injection Hs1 as _ <-. by rewrite map_map_fst. }
        unfold readdir. rewrite Ht1, Hnames, js_sort_names.
        apply wf_node_Dir in Hwf as [Hnd Hkids].
        set (sorted := sort_on fst kids).
        assert (sorted ≡ₚ kids) as Hperm by apply sort_on_perm.
        assert (Forall (λ nk : string * node,
                  item_ok c sk (Path.join p nk.1, stat_of_path w1 (Path.join p nk.1), nk.2)) sorted)
          as Hnew.
        { rewrite Hperm. apply Forall_forall. intros [n k] Hin.
          rewrite Forall_forall in Hkids. destruct (Hkids _ Hin) as [Hvn Hwk]. simpl in *.
          assert (lookup_node (Path.resolve_segs c (Path.join p n)) sk = Some k) as Hlk.
          { rewrite resolve_join, lookup_node_snoc, Hk by done. simpl.
            by apply child_elem. }
          split; [by apply join_nonempty |]. split; [done |]. split; [|done]. simpl.
          destruct (node_at_shape w1 (Path.join p n) k) as (t & Ht & Hst);
            [by apply join_nonempty | by rewrite Hc, Hsk |].
          unfold stat_of_path. rewrite Ht. simpl.
          rewrite <- Hst. unfold shape. by rewrite is_dir_map. }
        rewrite mapM_stat; cycle 1.
        { apply Forall_forall. intros q Hq.
          apply list_elem_of_fmap in Hq as (n & -> & Hn).
          rewrite list_elem_of_In, <- in_rev, <- list_elem_of_In in Hn.
          apply list_elem_of_fmap in Hn as ([n' k] & -> & Hin).
          rewrite Forall_forall in Hnew. destruct (Hnew _ Hin) as (Hq & Hlk & _). simpl in *.
          destruct (node_at_shape w1 (Path.join p n') k) as (t & Ht & _);
            [done | by rewrite Hc, Hsk |]. by rewrite Ht. }
        rewrite zip_map_self, <- map_rev, <- map_rev, rev_involutive, !map_map.
        set (new := map (λ nk : string * node,
                      (Path.join p nk.1, stat_of_path w1 (Path.join p nk.1), nk.2)) sorted).
        destruct (IH (new ++ items) (vs ++ [(p, true)]) w1) as (w' & Hrun & HInv').
        { apply Forall_app. split; [|done]. unfold new. by apply Forall_map. }
        { rewrite map_app, sum_list_with_app. unfold new. rewrite map_map. simpl.
          rewrite (sum_list_perm _ _ (Permutation_map (λ nk : string * node, node_size nk.2) Hperm)).
          lia. }
        { done. }
        exists w'. split.
        { rewrite <- Hrun. f_equal. rewrite map_app. f_equal. unfold new. by rewrite map_map. }
        rewrite preorder_Dir. rewrite flat_map_app in HInv'.
        unfold new in HInv'. rewrite flat_map_map in HInv'. simpl in HInv'.
        by rewrite <- app_assoc in HInv'.
Qed.

End Walk.

Lemma fsWalk_spec (Inv : list (string * bool) → World → Prop) (cb : Callback)
    (fuel : nat) (topDir : string) (w : World) (t : node) :
  (∀ vs w', Inv vs w' → shape (w_fs w') = shape (w_fs w) ∧ w_cwd w' = w_cwd w) →
  (∀ vs w' it, Inv vs w' → item_ok (w_cwd w) (shape (w_fs w)) it →
     ∃ w'', cb it.1.1 it.1.2 (emit (CallCb it.1.1 (st_isDirectory it.1.2)) w') = (Ok tt, w'') ∧
            Inv (vs ++ [(it.1.1, st_isDirectory it.1.2)]) w'') →
  Inv [] w →
  node_at w topDir = Some t → wf_node t = true → node_size t ≤ fuel →
  ∃ w', fsWalk fuel topDir cb w = Some (Ok tt, w') ∧ Inv (preorder t topDir) w'.
Proof.
  intros Hframe Hstep HInv Ht Hwf Hfuel.
  unfold fsWalk, stat. rewrite Ht.
  assert (topDir ≠ EmptyString) as Hne.
  { intros ->. by unfold node_at in Ht. }
  destruct (fsWalk_loop_spec (w_cwd w) (shape (w_fs w)) Inv cb Hframe Hstep fuel
              [(topDir, stats_of t, shape t)] [] w) as (w' & Hrun & HInv').
  - constructor; [|done]. split; [done |]. simpl.
    unfold node_at in Ht. rewrite bool_decide_eq_false_2 in Ht by done.
    unfold shape at 1. rewrite lookup_node_map, Ht. split; [done |].
    unfold shape. by rewrite is_dir_map, wf_node_map.
  - simpl. unfold shape. rewrite node_size_map. lia.
  - done.
  - exists w'. split; [done |]. simpl in HInv'.
    unfold shape in HInv'. by rewrite preorder_map, app_nil_r in HInv'.
Qed.


Lemma node_at_emit e w p : node_at (emit e w) p = node_at w p.
Proof. done. Qed.


Example preorder_fixtures :
  preorder Fixture.fixtures "test/fixtures" =
  [("test/fixtures", true);
   ("test/fixtures/cfn.yml", false);
   ("test/fixtures/foo.js", false);
   ("test/fixtures/foo_abs.js", false);
   ("test/fixtures/foo_ts.ts", false);
   ("test/fixtures/lib", true);
   ("test/fixtures/lib/bar.js", false);
   ("test/fixtures/lib/baz_ts.ts", false);
   ("test/fixtures/lib/lambda.js", false);
   ("test/fixtures/lib/lambda_dep.js", false);
   ("test/fixtures/node_modules", true);
   ("test/fixtures/node_modules/dep1", true);
   ("test/fixtures/node_modules/dep1/hello.js", false);
   ("test/fixtures/node_modules/dep1/package.json", false);
   ("test/fixtures/node_modules/dep2", true);
   ("test/fixtures/node_modules/dep2/package.json", false);
   ("test/fixtures/node_modules/dep2/world.js", false);
   ("test/fixtures/node_modules/dep3", true);
   ("test/fixtures/node_modules/dep3/bye.js", false);
   ("test/fixtures/node_modules/dep3/package.json", false);
   ("test/fixtures/tsconfig.json", false)].
Proof. by vm_compute. Qed.


(** ** The normalization step *)

Lemma node_map_compose f1 g1 f2 g2 t :
  node_map f1 g1 (node_map f2 g2 t) = node_map (λ m, f1 (f2 m)) (λ d, g1 (g2 d)) t.
Proof.
  induction t as [|m kids IH] using node_ind'; simpl; [done |].
  f_equal. rewrite map_map. simpl.
  apply map_ext_Forall. eapply Forall_impl; [done |]. intros [n k] E. simpl in *. by rewrite E.
Qed.

Lemma shape_content_view t : shape (content_view t) = shape t.
Proof. unfold shape, content_view. by rewrite node_map_compose. Qed.

Lemma content_view_shape t t' : content_view t = content_view t' → shape t = shape t'.
Proof. intros E. by rewrite <- (shape_content_view t), E, shape_content_view. Qed.

Lemma child_alter_child c g kids :
  child c (alter_child c g kids) = g <$> child c kids.
Proof.
  induction kids as [|[n k] kids IH]; simpl; [done |].
  case_bool_decide; simpl; [by rewrite bool_decide_eq_true_2 |].
  by rewrite bool_decide_eq_false_2.
Qed.

Lemma child_alter_child_ne c c' g kids :
  c ≠ c' → child c' (alter_child c g kids) = child c' kids.
Proof.
  intros Hne. induction kids as [|[n k] kids IH]; simpl; [done |].
  case_bool_decide; simpl; [|by rewrite IH].
  subst. by rewrite !bool_decide_eq_false_2.
Qed.

Lemma map_alter_child (h g : node → node) c kids :
  (∀ k, h (g k) = h k) →
  map (λ nk, (nk.1, h nk.2)) (alter_child c g kids) = map (λ nk, (nk.1, h nk.2)) kids.
Proof.
  intros Hg. induction kids as [|[n k] kids IH]; simpl; [done |].
  case_bool_decide; simpl; [by rewrite Hg | by rewrite IH].
Qed.

(** Changing the times of one entry changes nothing else. *)
Lemma content_view_alter_meta f cs : ∀ t,
  (∀ m, no_times (f m) = no_times m) →
  content_view (alter_node cs (set_meta f) t) = content_view t.
Proof.
  induction cs as [|c cs IH]; intros t Hf.
  - destruct t; simpl; unfold content_view; simpl; by rewrite Hf.
  - destruct t as [|m kids]; [done |]. simpl.
    unfold content_view. simpl. f_equal.
    apply (map_alter_child (node_map no_times id)). intros k. by apply IH.
Qed.

Lemma lookup_alter_meta f cs : ∀ qs t,
  meta_of <$> lookup_node qs (alter_node cs (set_meta f) t) =
  (λ m, if bool_decide (qs = cs) then f m else m) <$> (meta_of <$> lookup_node qs t).
Proof.
  induction cs as [|c cs IH]; intros qs t.
  - destruct qs as [|q qs]; simpl.
    + by destruct t.
    + destruct t as [|m kids]; simpl; [done |].
      destruct (child q kids); simpl; [|done].
      destruct (lookup_node qs n); simpl; [|done]. done.
  - destruct t as [m d | m kids]; simpl.
    + destruct qs as [|q qs]; simpl; done.
    + destruct qs as [|q qs]; simpl; [done |].
      destruct (decide (c = q)) as [<-|Hne].
      * rewrite child_alter_child. destruct (child c kids) as [k|]; simpl; [|done].
        rewrite IH. destruct (lookup_node qs k); simpl; [|done].
        f_equal. destruct (decide (qs = cs)) as [->|Hq].
        -- by rewrite !bool_decide_eq_true_2.
        -- rewrite !bool_decide_eq_false_2; [done | congruence | done].
      * rewrite child_alter_child_ne by done.
        destruct (child q kids) as [k|]; simpl; [|done].
        destruct (lookup_node qs k); simpl; [|done].
        rewrite bool_decide_eq_false_2; [done | congruence].
Qed.

Lemma elem_of_flat_map_In {A B} (f : A → list B) (l : list A) (y : B) :
  y ∈ flat_map f l ↔ ∃ x, x ∈ l ∧ y ∈ f x.
Proof.
  rewrite list_elem_of_In, in_flat_map. setoid_rewrite list_elem_of_In. done.
Qed.

(** When every path of the preorder carries the time [v], so does the tree. *)
Lemma all_mtime_of_preorder (v : Z) (c : list string) (root : node) (t : node) : ∀ p,
  wf_node t = true → p ≠ EmptyString →
  lookup_node (Path.resolve_segs c p) root = Some t →
  (∀ q d, (q, d) ∈ preorder t p →
     q ≠ EmptyString ∧
     (λ x, mtime (meta_of x)) <$> lookup_node (Path.resolve_segs c q) root = Some v) →
  all_mtime v t = true.
Proof.
  induction t as [m d | m kids IH] using node_ind'; intros p Hwf Hp Ht Hall.
  - destruct (Hall p false) as [_ Hm]; [by left |].
    rewrite Ht in Hm. simpl in *. simplify_eq. by rewrite bool_decide_eq_true_2.
  - rewrite preorder_Dir in Hall.
    destruct (Hall p true) as [_ Hm]; [by left |].
    rewrite Ht in Hm. simpl in Hm. simplify_eq.
    simpl. rewrite bool_decide_eq_true_2 by done. simpl.
    apply wf_node_Dir in Hwf as [Hnd Hkids].
    apply forallb_forall. intros [n k] Hin. apply list_elem_of_In in Hin. simpl.
    rewrite Forall_forall in IH, Hkids.
    destruct (Hkids _ Hin) as [Hvn Hwk]. simpl in *.
    apply (IH _ Hin (Path.join p n)); [done | by apply join_nonempty | |].
    + rewrite resolve_join, lookup_node_snoc, Ht by done. simpl. by apply child_elem.
    + intros q dq Hq. apply (Hall q dq). right. apply elem_of_flat_map_In.
      exists (n, k). split; [by rewrite (sort_on_perm fst kids) | done].
Qed.

Lemma same_process_refl w : same_process w w.
Proof. by repeat split. Qed.

Lemma same_process_trans w1 w2 w3 :
  same_process w1 w2 → same_process w2 w3 → same_process w1 w3.
Proof. unfold same_process. intros ??. destruct_and!. repeat split; congruence. Qed.

Lemma node_at_same_shape (w w' : World) (p : string) (t : node) :
  w_cwd w' = w_cwd w → shape (w_fs w') = shape (w_fs w) →
  node_at w p = Some t → ∃ t', node_at w' p = Some t' ∧ shape t' = shape t.
Proof.
  intros Hc Hs Ht.
  assert (p ≠ EmptyString) as Hne by (intros ->; by unfold node_at in Ht).
  apply node_at_shape; [done |]. rewrite Hc, Hs.
  unfold node_at in Ht. rewrite bool_decide_eq_false_2 in Ht by done.
  unfold shape. by rewrite lookup_node_map, Ht.
Qed.

Lemma node_at_content_view (w w' : World) (p : string) (t : node) :
  w_cwd w' = w_cwd w → content_view (w_fs w') = content_view (w_fs w) →
  node_at w p = Some t → ∃ t', node_at w' p = Some t' ∧ content_view t' = content_view t.
Proof.
  intros Hc Hs Ht. unfold node_at in *.
  destruct (bool_decide (p = EmptyString)); [done |]. rewrite Hc.
  assert (content_view <$> lookup_node (Path.resolve_segs (w_cwd w) p) (w_fs w') =
          Some (content_view t)) as E.
  { unfold content_view. rewrite <- lookup_node_map. fold (content_view (w_fs w')).
    rewrite Hs. unfold content_view. by rewrite lookup_node_map, Ht. }
  destruct (lookup_node _ (w_fs w')) as [t'|]; simplify_eq/=. eauto.
Qed.

(** The walk of the normalization step, with the events it leaves. *)
Lemma normalize_times_run (stageDir : string) (w : World) (t : node) :
  node_at w stageDir = Some t → wf_node t = true →
  ∃ w' t', normalize_times stageDir w = (Ok tt, w') ∧
    node_at w' stageDir = Some t' ∧ all_mtime 0 t' = true ∧
    content_view (w_fs w') = content_view (w_fs w) ∧
    same_process w w' ∧
    w_trace w' = w_trace w ++ cb_events (preorder t stageDir).
Proof.
  intros Ht Hwf.
  destruct (fsWalk_spec
    (λ vs w', same_process w w' ∧
              content_view (w_fs w') = content_view (w_fs w) ∧
              w_trace w' = w_trace w ++ cb_events vs ∧
              ∀ q d, (q, d) ∈ vs → q ≠ EmptyString ∧ mtime_at w' q = Some 0%Z)
    (λ fpath st, utimes fpath (st_atime st) 0) (node_size t) stageDir w t)
    as (w' & Hrun & Hproc & Hcv & Htr & Hall); try done.
  - intros vs w1 (Hproc & Hcv & _). split; [by apply content_view_shape | apply Hproc].
  - intros vs w1 [[p st] k] (Hproc & Hcv & Htr & Hall) (Hp & Hk & _). simpl in *.
    assert (w_cwd w1 = w_cwd w) as Hc by apply Hproc.
    destruct (node_at_shape w1 p k) as (t1 & Ht1 & _);
      [done | by rewrite Hc, (content_view_shape _ _ Hcv) |].
    unfold utimes. rewrite node_at_emit, Ht1.
    eexists. split; [done |]. simpl.
    split; [apply Hproc |]. split; [by rewrite content_view_alter_meta |].
    split; [rewrite Htr; unfold cb_events; by rewrite map_app, <- app_assoc |].
    intros q d Hq.
    assert (q ≠ EmptyString ∧ is_Some (node_at w1 q) ∧
            (q = p ∨ mtime_at w1 q = Some 0%Z)) as (Hqne & [tq Htq] & Hcase).
    { apply elem_of_app in Hq as [Hq | Hq].
      - destruct (Hall _ _ Hq) as [? Hm]. split; [done |]. split; [|by right].
        unfold mtime_at in Hm. by destruct (node_at w1 q).
      - apply list_elem_of_singleton in Hq. simplify_eq. eauto. }
    split; [done |].
    unfold mtime_at, node_at in *. simpl.
    rewrite bool_decide_eq_false_2 in * by done.
    set (f := λ m0 : Meta, {| mode := mode m0; atime := st_atime st; mtime := 0 |}).
    pose proof (lookup_alter_meta f (Path.resolve_segs (w_cwd w1) p)
                  (Path.resolve_segs (w_cwd w1) q) (w_fs w1)) as E.
    rewrite Htq in E. simpl in E.
    destruct (lookup_node _ (alter_node _ _ _)) as [tq'|]; simplify_eq/=.
    rewrite E. case_bool_decide; [done |].
    destruct Hcase as [Heq | Hm]; [subst; by destruct H |]. rewrite Htq in Hm. exact Hm.
  - split; [apply same_process_refl |]. split; [done |]. split; [by rewrite app_nil_r |].
    intros q d Hq. by apply elem_of_nil in Hq.
  - assert (w_cwd w' = w_cwd w) as Hc by apply Hproc.
    destruct (node_at_content_view w w' stageDir t Hc Hcv Ht) as (t' & Ht' & Hcv').
    assert (shape t' = shape t) as Hs' by by apply content_view_shape.
    exists w', t'. split.
    { unfold normalize_times, fsWalk_tree. by rewrite Ht, Hrun. }
    split; [done |]. split; [|done].
    assert (stageDir ≠ EmptyString) as Hne by (intros ->; by unfold node_at in Ht).
    apply (all_mtime_of_preorder 0 (w_cwd w') (w_fs w') t' stageDir); [| done | |].
    + rewrite <- (wf_node_map (λ _, meta0) (λ _, EmptyString)). fold (shape t').
      rewrite Hs'. unfold shape. by rewrite wf_node_map.
    + unfold node_at in Ht'. by rewrite bool_decide_eq_false_2 in Ht'.
    + intros q d Hq.
      rewrite <- (preorder_map (λ _, meta0) (λ _, EmptyString)) in Hq. fold (shape t') in Hq.
      rewrite Hs' in Hq. unfold shape in Hq. rewrite preorder_map in Hq.
      destruct (Hall _ _ Hq) as [Hqne Hm]. split; [done |].
      unfold mtime_at, node_at in Hm. by rewrite bool_decide_eq_false_2 in Hm.
Qed.

(** C4. After the normalization step every file and every directory under
    the staging root, the root included, has the modification time 0, and
    the file system holds the same names, kinds, modes and data as
    before, there and everywhere else. *)
Theorem normalize_times_spec (stageDir : string) (w : World) (t : node) :
  node_at w stageDir = Some t → wf_node t = true →
  ∃ w' t', normalize_times stageDir w = (Ok tt, w') ∧
    node_at w' stageDir = Some t' ∧ all_mtime 0 t' = true ∧
    content_view (w_fs w') = content_view (w_fs w).
Proof.
  intros Ht Hwf.
  destruct (normalize_times_run stageDir w t Ht Hwf) as (w' & t' & ? & ? & ? & ? & _).
  eauto 10.
Qed.

(** ** Writing into the tree *)

Lemma child_set_child n k kids : child n (set_child n k kids) = Some k.
Proof.
  induction kids as [|[n' k'] kids IH]; simpl.
  - by rewrite bool_decide_eq_true_2.
  - case_bool_decide; simpl; [by rewrite bool_decide_eq_true_2 |].
    by rewrite bool_decide_eq_false_2.
Qed.

Lemma child_set_child_ne n n' k kids :
  n ≠ n' → child n' (set_child n k kids) = child n' kids.
Proof.
  intros Hne. induction kids as [|[n0 k0] kids IH]; simpl.
  - by rewrite bool_decide_eq_false_2.
  - case_bool_decide; simpl; subst.
    + by rewrite !bool_decide_eq_false_2.
    + by rewrite IH.
Qed.

Lemma child_del_child_ne n n' kids :
  n ≠ n' → child n' (del_child n kids) = child n' kids.
Proof.
  intros Hne. induction kids as [|[n0 k0] kids IH]; simpl; [done |].
  case_bool_decide; simpl; subst.
  - by rewrite bool_decide_eq_false_2.
  - by rewrite IH.
Qed.

Lemma lookup_alter_same g cs : ∀ t,
  lookup_node cs (alter_node cs g t) = g <$> lookup_node cs t.
Proof.
  induction cs as [|c cs IH]; intros t; [done |].
  destruct t as [|m kids]; simpl; [done |].
  rewrite child_alter_child. destruct (child c kids); simpl; [apply IH | done].
Qed.

Lemma lookup_put_same now cs new : ∀ t, lookup_node cs (put_node now cs new t) = Some new.
Proof.
  induction cs as [|c cs IH]; intros t; [done |].
  simpl. rewrite child_set_child. apply IH.
Qed.

(** Putting or removing an entry of a directory leaves its siblings. *)
Lemma lookup_put_sibling now d a b rest new t :
  a ≠ b →
  lookup_node (d :: a :: rest) (put_node now [d; b] new t) = lookup_node (d :: a :: rest) t.
Proof.
  intros Hne. simpl. rewrite child_set_child.
  rewrite child_set_child_ne by done.
  destruct t as [|m kids]; simpl; [done |].
  destruct (child d kids) as [[|m' ks]|]; simpl; done.
Qed.

Lemma lookup_remove_sibling d a b rest t :
  a ≠ b →
  lookup_node (d :: a :: rest) (remove_node [d; b] t) = lookup_node (d :: a :: rest) t.
Proof.
  intros Hne. destruct t as [|m kids]; simpl; [done |].
  rewrite child_alter_child.
  destruct (child d kids) as [[|m' ks]|]; simpl; [done | | done].
  by rewrite child_del_child_ne.
Qed.

(** A successful [writeFile] puts one file into one directory. *)
Lemma writeFile_inv p data w w' :
  writeFile p data w = (Ok tt, w') →
  p ≠ EmptyString ∧
  ∃ parent n dm kids g dm' fm,
    Path.resolve_segs (w_cwd w) p = parent ++ [n] ∧
    lookup_node parent (w_fs w) = Some (Dir dm kids) ∧
    (∀ m ks, child n kids ≠ Some (Dir m ks)) ∧
    w' = set_clock (w_clock w + 1) (set_fs (alter_node parent g) w) ∧
    g (Dir dm kids) = Dir dm' (set_child n (File fm data) kids) ∧
    no_times dm' = no_times dm ∧
    no_times fm = no_times {| mode := match child n kids with
                                      | Some (File m _) => mode m
                                      | _ => new_file_mode w
                                      end; atime := 0; mtime := 0 |}.
Proof.
  unfold writeFile. intros Hw.
  destruct (rev (Path.resolve_segs (w_cwd w) p)) as [|n rparent] eqn:Erev.
  { by case_bool_decide. }
  case_bool_decide as Hp; [done |]. split; [done |].
  assert (Path.resolve_segs (w_cwd w) p = rev rparent ++ [n]) as Hcs.
  { apply (f_equal (@rev _)) in Erev. rewrite rev_involutive in Erev. by rewrite Erev. }
  destruct (lookup_node (rev rparent) (w_fs w)) as [[|dm kids]|] eqn:Hpar; try done.
  destruct (child n kids) as [[m d|m ks]|] eqn:Hch; try done; simplify_eq.
  - exists (rev rparent), n, dm, kids,
      (λ d0, match d0 with
             | Dir dm1 ks =>
                 Dir dm1 (set_child n (File (touch_mtime (w_clock w) m) data) ks)
             | File _ _ => d0
             end), dm, (touch_mtime (w_clock w) m).
    split_and!; try done.
    + intros ??. by rewrite Hch.
    + by rewrite Hch.
  - exists (rev rparent), n, dm, kids,
      (λ d0, match d0 with
             | Dir dm1 ks =>
                 Dir (touch_mtime (w_clock w) dm1)
                   (set_child n
                      (File {| mode := new_file_mode w; atime := w_clock w;
                               mtime := w_clock w |} data) ks)
             | File _ _ => d0
             end), (touch_mtime (w_clock w) dm),
      {| mode := new_file_mode w; atime := w_clock w; mtime := w_clock w |}.
    split_and!; try done.
    + intros ??. by rewrite Hch.
    + by rewrite Hch.
Qed.

Lemma obs_alter_put n F g parent : ∀ t qs dm kids dm',
  lookup_node parent t = Some (Dir dm kids) →
  (∀ m ks, child n kids ≠ Some (Dir m ks)) →
  g (Dir dm kids) = Dir dm' (set_child n F kids) →
  is_dir F = false →
  qs ≠ parent ++ [n] →
  obs <$> lookup_node qs (alter_node parent g t) = obs <$> lookup_node qs t.
Proof.
  induction parent as [|c parent IH]; intros t qs dm kids dm' Hpar Hch Hg HF Hqs.
  - simpl in Hpar. simplify_eq. simpl. rewrite Hg.
    destruct qs as [|q qs]; [done |]. simpl.
    destruct (decide (n = q)) as [<-|Hne].
    + rewrite child_set_child.
      destruct qs as [|q' qs]; [done |].
      destruct F; [|done]. simpl.
      destruct (child n kids) as [[|m0 ks0]|] eqn:E; simpl; [done | | done].
      by destruct (Hch m0 ks0).
    + by rewrite child_set_child_ne.
  - destruct t as [|m ks]; [done |]. simpl in Hpar.
    destruct (child c ks) as [k|] eqn:Ek; [|done].
    destruct qs as [|q qs]; [done |]. simpl.
    destruct (decide (c = q)) as [<-|Hne].
    + rewrite child_alter_child, Ek. simpl.
      apply (IH k qs dm kids dm'); try done. intros ->. by apply Hqs.
    + by rewrite child_alter_child_ne.
Qed.

Lemma writeFile_frame p data w w' :
  writeFile p data w = (Ok tt, w') →
  entry_at w' p = Some (Some data) ∧
  ∀ q, q ≠ EmptyString →
    Path.resolve_segs (w_cwd w) q ≠ Path.resolve_segs (w_cwd w) p →
    entry_at w' q = entry_at w q.
Proof.
  intros Hw.
  destruct (writeFile_inv _ _ _ _ Hw)
    as (Hp & parent & n & dm & kids & g & dm' & fm & Hcs & Hpar & Hch & -> & Hg & _).
  unfold entry_at, node_at. simpl. split.
  - rewrite bool_decide_eq_false_2 by done.
    rewrite Hcs, lookup_node_snoc, lookup_alter_same, Hpar. simpl.
    rewrite Hg. simpl. by rewrite child_set_child.
  - intros q Hq Hne. rewrite bool_decide_eq_false_2 by done.
    rewrite Hcs in Hne.
    by apply (obs_alter_put n (File fm data) g parent _ _ dm kids dm').
Qed.

(** ** The stub step *)

Lemma make_stub_top_level (p stageDir : string) (w : World) :
  Path.dirname p = "." → make_stub p stageDir w = (Ok tt, w).
Proof. intros E. unfold make_stub. by rewrite bool_decide_eq_false_2 by (by intros []). Qed.

Lemma make_stub_nested (p stageDir : string) (w : World) :
  Path.dirname p ≠ "." →
  make_stub p stageDir w =
  writeFile (Path.join stageDir (Path.name (Path.parse p) +:+ ".js"))
    (stub_text (Path.relative (w_cwd w) EmptyString
                  (Path.join (Path.dir (Path.parse p)) (Path.name (Path.parse p))))) w.
Proof. intros E. unfold make_stub. by rewrite bool_decide_eq_true_2. Qed.

(** The stub is a file directly below the staging directory. *)
Lemma stub_path_top_level (cwd : list string) (p stageDir : string) :
  stageDir ≠ EmptyString →
  Path.resolve_segs cwd (Path.join stageDir (Path.name (Path.parse p) +:+ ".js")) =
  Path.resolve_segs cwd stageDir ++ [Path.name (Path.parse p) +:+ ".js"].
Proof.
  intros Hs. apply resolve_join; [done |]. apply valid_name_js, parse_name_no_slash.
Qed.

(** C8, as amended. When the stub step writes, it writes one file, the
    stub, directly below the staging root; every other path holds after it
    what it held before: nothing, a directory, or a file with the same
    data. (A file staged under the name of the stub is the one path that
    changes: see [stub_overwrites_staged_file].) *)
Theorem make_stub_frame (p stageDir : string) (w w' : World) :
  Path.dirname p ≠ "." →
  make_stub p stageDir w = (Ok tt, w') →
  entry_at w' (Path.join stageDir (Path.name (Path.parse p) +:+ ".js")) =
    Some (Some (stub_text (Path.relative (w_cwd w) EmptyString
                  (Path.join (Path.dir (Path.parse p)) (Path.name (Path.parse p)))))) ∧
  ∀ q, q ≠ EmptyString →
    Path.resolve_segs (w_cwd w) q ≠
      Path.resolve_segs (w_cwd w) (Path.join stageDir (Path.name (Path.parse p) +:+ ".js")) →
    entry_at w' q = entry_at w q.
Proof.
  intros Hd. rewrite make_stub_nested by done. apply writeFile_frame.
Qed.

(** ** What the steps leave alone *)

Lemma frame_refl w : frame w w.
Proof. repeat split. exists []. by rewrite app_nil_r. Qed.

Lemma frame_trans w1 w2 w3 : frame w1 w2 → frame w2 w3 → frame w1 w3.
Proof.
  intros (? & ? & ? & ? & ? & evs1 & E1) (? & ? & ? & ? & ? & evs2 & E2).
  repeat split; try congruence.
  exists (evs1 ++ evs2). by rewrite E2, E1, app_assoc.
Qed.

Lemma frame_emit e w : frame w (emit e w).
Proof. repeat split. by exists [e]. Qed.

Lemma frame_set_fs f w : frame w (set_fs f w).
Proof. repeat split. exists []. simpl. by rewrite app_nil_r. Qed.

Lemma frame_set_clock z w : frame w (set_clock z w).
Proof. repeat split. exists []. simpl. by rewrite app_nil_r. Qed.

Lemma frame_set_NODE_PATH v w : frame w (set_NODE_PATH v w).
Proof. repeat split. exists []. simpl. by rewrite app_nil_r. Qed.

Lemma frame_remove p w : frame w (remove p w).
Proof. unfold remove. case_bool_decide; [apply frame_refl | apply frame_set_fs]. Qed.

Lemma frame_writeFile p data w r w' : writeFile p data w = (r, w') → frame w w'.
Proof.
  unfold writeFile. intros E.
  repeat case_match; simplify_eq; try apply frame_refl;
    (eapply frame_trans; [apply frame_set_fs | apply frame_set_clock]).
Qed.

Lemma frame_utimes p a m w r w' : utimes p a m w = (r, w') → frame w w'.
Proof.
  unfold utimes. intros E.
  case_match; simplify_eq; [apply frame_set_fs | apply frame_refl].
Qed.

Lemma stat_state p w r w' : stat p w = (r, w') → w' = w.
Proof. unfold stat. intros E. by case_match; simplify_eq. Qed.

Lemma readdir_state p w r w' : readdir p w = (r, w') → w' = w.
Proof. unfold readdir. intros E. by repeat case_match; simplify_eq. Qed.

Lemma mapM_stat_state l : ∀ w r w', mapM stat l w = (r, w') → w' = w.
Proof.
  induction l as [|q l IH]; intros w r w' E; simpl in E.
  - unfold ret in E. by simplify_eq.
  - unfold bind at 1 in E.
    destruct (stat q w) as [[st|e] w1] eqn:E1; apply stat_state in E1 as ->; [|by simplify_eq].
    unfold bind at 1 in E.
    destruct (mapM stat l w) as [[sts|e] w2] eqn:E2; apply IH in E2 as ->;
      unfold ret in E; by simplify_eq.
Qed.

Lemma fsWalk_loop_frame (cb : Callback) :
  (∀ p st w r w', cb p st w = (r, w') → frame w w') →
  ∀ fuel todo w r w', fsWalk_loop fuel cb todo w = Some (r, w') → frame w w'.
Proof.
  intros Hcb. induction fuel as [|fuel IH]; intros todo w r w' E.
  - destruct todo as [|[p st] todo]; simpl in E; simplify_eq. apply frame_refl.
  - destruct todo as [|[p st] todo]; simpl in E; [simplify_eq; apply frame_refl |].
    destruct (cb p st (emit (CallCb p (st_isDirectory st)) w)) as [[[]|e] w1] eqn:E1;
      apply Hcb in E1;
      (assert (frame w w1) as Hw1 by (eapply frame_trans; [apply frame_emit | done]));
      [|by simplify_eq].
    destruct (st_isDirectory st).
    + destruct (readdir p w1) as [[entries|e] w2] eqn:E2;
        apply readdir_state in E2 as ->; [|by simplify_eq].
      destruct (mapM stat _ w1) as [[stats|e] w3] eqn:E3;
        apply mapM_stat_state in E3 as ->; [|by simplify_eq].
      apply IH in E. by eapply frame_trans.
    + apply IH in E. by eapply frame_trans.
Qed.

Lemma frame_normalize_times stageDir w r w' :
  normalize_times stageDir w = (r, w') → frame w w'.
Proof.
  unfold normalize_times, fsWalk_tree. intros E.
  destruct (fsWalk _ _ _ w) as [[r1 w1]|] eqn:E1; simplify_eq; [|apply frame_refl].
  unfold fsWalk in E1.
  destruct (stat stageDir w) as [[st|e] w2] eqn:E2; apply stat_state in E2 as ->;
    [|simplify_eq; apply frame_refl].
  eapply fsWalk_loop_frame; [|done].
  intros p st0 w0 r0 w0'. apply frame_utimes.
Qed.

Lemma frame_make_stub p stageDir w r w' : make_stub p stageDir w = (r, w') → frame w w'.
Proof.
  unfold make_stub. case_bool_decide.
  - unfold bind, gets. apply frame_writeFile.
  - unfold ret. intros ?; simplify_eq. apply frame_refl.
Qed.

Lemma frame_tmp stageDir w w' : frame w w' → w_tmp (remove stageDir w') = w_tmp w.
Proof.
  intros (_ & Ht & _). unfold remove. by case_bool_decide.
Qed.

Section Frames.
Context `{Externals}.

Lemma frame_spawn_zip zipPath cwd w r w' : spawn_zip zipPath cwd w = (r, w') → frame w w'.
Proof.
  unfold spawn_zip. intros E.
  repeat case_match; simplify_eq; try apply frame_emit.
  all: eapply frame_trans; [apply frame_emit |].
  all: eapply frame_trans; [apply frame_set_fs | apply frame_set_clock].
Qed.

(** The tail of the pipeline stores its result in the cache, and nothing
    else. *)
Lemma package_stage_cache p stageDir options w r w' :
  package_stage p stageDir options w = (r, w') →
  (∃ evs, w_trace w' = w_trace w ++ evs) ∧
  match r with
  | Ok z =>
      z = tmp_path (tmp_name "aws-lambda-" (w_tmp w) ".zip") ∧
      w_cache w' = if cache options then <[p := z]> (w_cache w) else w_cache w
  | Err _ => w_cache w' = w_cache w
  end.
Proof.
  unfold package_stage. intros E.
  unfold bind at 1 in E.
  destruct (make_stub p stageDir w) as [[[]|e] w1] eqn:E1;
    apply frame_make_stub in E1; [|simplify_eq; split; apply E1].
  unfold bind at 1 in E.
  destruct (normalize_times stageDir w1) as [[[]|e] w2] eqn:E2;
    apply frame_normalize_times in E2;
    pose proof (frame_trans _ _ _ E1 E2) as F2;
    [|simplify_eq; split; apply F2].
  unfold bind at 1 in E. unfold tmp_file at 1 in E.
  unfold bind at 1 in E. unfold modify at 1 in E.
  unfold bind at 1 in E.
  match type of E with
  | context [spawn_zip ?z ?d ?w0] =>
      remember w0 as w3 eqn:Ew3; remember z as z0 eqn:Ez0
  end.
  assert (w_cache w3 = w_cache w ∧ ∃ evs, w_trace w3 = w_trace w ++ evs) as [Hc3 Ht3].
  { destruct F2 as (Hc & _ & _ & _ & _ & Ht). rewrite Ew3. unfold remove.
    case_bool_decide; simpl; done. }
  assert (z0 = tmp_path (tmp_name "aws-lambda-" (w_tmp w) ".zip")) as Hz.
  { rewrite Ez0. destruct F2 as (_ & -> & _). done. }
  destruct (spawn_zip z0 stageDir w3) as [[[]|e] w4] eqn:E4;
    apply frame_spawn_zip in E4; destruct E4 as (Hc4 & _ & _ & _ & _ & evs4 & Ht4);
    destruct Ht3 as [evs3 Ht3].
  - unfold bind at 1 in E. destruct (cache options); simpl in E;
      unfold modify, ret in E; injection E as <- <-; simpl.
    + split; [exists (evs3 ++ evs4); by rewrite Ht4, Ht3, app_assoc |].
      split; [done |]. by rewrite Hc4, Hc3, Hz.
    + split; [exists (evs3 ++ evs4); by rewrite Ht4, Ht3, app_assoc |].
      split; [done |]. by rewrite Hc4, Hc3.
  - injection E as <- <-. split; [exists (evs3 ++ evs4); by rewrite Ht4, Ht3, app_assoc |].
    by rewrite Hc4, Hc3.
Qed.

End Frames.

Section Cache.
Context `{Externals}.

Lemma collect_args_spec (options : ICollectOpts) (w : World) :
  ∃ args l, collect_args options w = (Ok args, set_browserifyArgs l w).
Proof.
  unfold collect_args. destruct w.
  destruct (tsconfig options) as [ts|]; [destruct (truthy (Some ts))|];
    destruct (browserifyArgs options); simpl; do 2 eexists; reflexivity.
Qed.

(** A run that does not find the entry in the cache, step by step. *)
Lemma makeTmpZipFile_miss (p : string) (options : ICollectOpts) (w : World) :
  (if cache options then w_cache w !! p else None) = None →
  ∃ args l,
    collect_args options w = (Ok args, set_browserifyArgs l w) ∧
    let w0 := set_browserifyArgs l w in
    let w1 := (tmp_dir "aws-lambda-" w0).2 in
    let w2 := emit (LogDebug ("Collecting files from " +:+ p +:+ " in " +:+ stage_dir w)) w1 in
    let w3 := match nodePath options with
              | Some v => env_assign_NODE_PATH (Some v) w2
              | None => w2
              end in
    _makeTmpZipFile p options w =
      let '(r, w') :=
        match collectJsDeps (["--outdir"; stage_dir w] ++ args ++ [p]) w3 with
        | (Ok _, w4) => package_stage p (stage_dir w) options w4
        | (Err e, w4) => (Err e, w4)
        end in
      (r, remove (stage_dir w) (env_assign_NODE_PATH (w_NODE_PATH w) w')).
Proof.
  intros Hmiss. destruct (collect_args_spec options w) as (args & l & Ha).
  exists args, l. split; [done |]. simpl.
  unfold _makeTmpZipFile. rewrite Hmiss.
  unfold bind at 1. rewrite Ha.
  unfold bind at 1. unfold env_get_NODE_PATH, gets.
  unfold bind at 1. unfold tmp_dir at 1. simpl w_NODE_PATH.
  unfold try_finally. unfold stage_dir.
  unfold bind at 1. unfold logger_debug at 1, modify at 1.
  unfold bind at 1.
  destruct (nodePath options) as [v|]; unfold modify, ret; unfold bind at 1; simpl;
    by repeat case_match.
Qed.

Lemma remove_NODE_PATH p w : w_NODE_PATH (remove p w) = w_NODE_PATH w.
Proof. unfold remove. by case_bool_decide. Qed.

Lemma remove_trace p w : w_trace (remove p w) = w_trace w.
Proof. unfold remove. by case_bool_decide. Qed.

Lemma remove_cache p w : w_cache (remove p w) = w_cache w.
Proof. unfold remove. by case_bool_decide. Qed.

Lemma makeTmpZipFile_NODE_PATH_miss (p : string) (options : ICollectOpts) (w : World) :
  (if cache options then w_cache w !! p else None) = None →
  w_NODE_PATH (_makeTmpZipFile p options w).2 = Some (js_String (w_NODE_PATH w)).
Proof.
  intros Hmiss. destruct (makeTmpZipFile_miss p options w Hmiss) as (args & l & _ & ->).
  cbv zeta.
  match goal with |- context [let '(r, w') := ?x in _] => destruct x as [r w'] end.
  cbn [snd]. by rewrite remove_NODE_PATH.
Qed.

Lemma makeTmpZipFile_hit (p z : string) (options : ICollectOpts) (w : World) :
  cache options = true → w_cache w !! p = Some z →
  _makeTmpZipFile p options w =
    (Ok z, emit (LogDebug ("Reusing cached zip file for " +:+ p)) w).
Proof. intros Hc Hz. unfold _makeTmpZipFile. by rewrite Hc, Hz. Qed.

(** A [NODE_PATH] that is set is set to the same value after the call,
    however the call ends. *)
Lemma makeTmpZipFile_NODE_PATH_set (p v : string) (options : ICollectOpts) (w : World) :
  w_NODE_PATH w = Some v →
  w_NODE_PATH (_makeTmpZipFile p options w).2 = Some v.
Proof.
  intros Hv.
  destruct (if cache options then w_cache w !! p else None) as [z|] eqn:E.
  - unfold _makeTmpZipFile. by rewrite E.
  - rewrite makeTmpZipFile_NODE_PATH_miss by done. by rewrite Hv.
Qed.

(** C1. With a cache supplied: if the cache has the entry path,
    [_makeTmpZipFile] returns the cached archive path and does nothing
    else but log that, so the collector is not called; if it has not, the
    collector is called, and a run that returns an archive path leaves the
    cache mapping the entry path to that path. *)
Theorem makeTmpZipFile_cache (p : string) (options : ICollectOpts) (w : World) :
  cache options = true →
  (∀ z, w_cache w !! p = Some z →
     _makeTmpZipFile p options w =
       (Ok z, emit (LogDebug ("Reusing cached zip file for " +:+ p)) w)) ∧
  (w_cache w !! p = None →
     ∃ args np evs,
       w_trace (_makeTmpZipFile p options w).2 =
         w_trace w ++
         LogDebug ("Collecting files from " +:+ p +:+ " in " +:+ stage_dir w) ::
         CallCollect (["--outdir"; stage_dir w] ++ args ++ [p]) np :: evs ∧
       ∀ z, (_makeTmpZipFile p options w).1 = Ok z →
         w_cache (_makeTmpZipFile p options w).2 = <[p := z]> (w_cache w)).
Proof.
  intros Hc. split; [intros z; by apply makeTmpZipFile_hit |].
  intros Hmiss.
  destruct (makeTmpZipFile_miss p options w) as (args & l & _ & ->); [by rewrite Hc |].
  cbv zeta.
  set (w3 := match nodePath options with Some v => _ | None => _ end).
  assert (w_cache w3 = w_cache w ∧
          w_trace w3 = w_trace w ++
            [LogDebug ("Collecting files from " +:+ p +:+ " in " +:+ stage_dir w)])
    as [Hc3 Ht3].
  { unfold w3. by destruct (nodePath options). }
  exists args, (w_NODE_PATH w3).
  unfold collectJsDeps.
  destruct (collector _ _ _ _) as [[[]|e] fs'] eqn:Ecol.
  - destruct (package_stage p (stage_dir w) options _) as [r w'] eqn:Epk.
    apply package_stage_cache in Epk as [[evs Hevs] Hr].
    exists evs. cbn [fst snd]. split.
    + rewrite remove_trace. simpl. rewrite Hevs. simpl. rewrite Ht3.
      by rewrite <- !app_assoc.
    + intros z ->. destruct Hr as [_ Hr]. rewrite Hc in Hr.
      rewrite remove_cache. simpl. rewrite Hr. simpl. by rewrite Hc3.
  - exists []. cbn [fst snd]. split; [|done].
    rewrite remove_trace. simpl. rewrite Ht3. by rewrite <- !app_assoc.
Qed.

End Cache.

(** ** The archive as a function of the staged contents *)

Lemma no_atime_content_view t :
  all_mtime 0 t = true → node_map no_atime id t = content_view t.
Proof.
  induction t as [m d | m kids IH] using node_ind'; simpl.
  - rewrite bool_decide_eq_true. intros Hm. unfold content_view. simpl.
    unfold no_atime, no_times. by rewrite Hm.
  - rewrite andb_true_iff, bool_decide_eq_true, forallb_forall. intros [Hm Hk].
    unfold content_view. simpl. f_equal; [unfold no_atime, no_times; by rewrite Hm |].
    apply map_ext_Forall. rewrite Forall_forall in IH |- *.
    intros [n k] Hin. simpl. f_equal. apply (IH _ Hin).
    apply (Hk (n, k)). by apply list_elem_of_In.
Qed.

Lemma zip_view_normalized t :
  all_mtime 0 t = true → zip_view (kids_of t) = kids_of (content_view t).
Proof.
  intros Hm. apply no_atime_content_view in Hm.
  destruct t as [|m kids]; [done |]. unfold content_view in Hm. simpl in Hm.
  by injection Hm.
Qed.

Lemma map_set_child (h : node → node) n k kids :
  map (λ nk, (nk.1, h nk.2)) (set_child n k kids) =
  set_child n (h k) (map (λ nk, (nk.1, h nk.2)) kids).
Proof.
  induction kids as [|[n' k'] kids IH]; simpl; [done |].
  case_bool_decide; simpl; [done | by rewrite IH].
Qed.

Lemma names_set_child n k kids :
  map fst (set_child n k kids) =
  if bool_decide (n ∈ map fst kids) then map fst kids else map fst kids ++ [n].
Proof.
  induction kids as [|[n' k'] kids IH]; simpl; [done |].
  destruct (decide (n' = n)) as [->|Hne].
  - rewrite bool_decide_eq_true_2 by done. simpl.
    rewrite bool_decide_eq_true_2; [done | by left].
  - rewrite bool_decide_eq_false_2 by done. simpl. rewrite IH.
    destruct (decide (n ∈ map fst kids)) as [Hin|Hnin].
    + rewrite !bool_decide_eq_true_2; [done | by right | done].
    + rewrite !bool_decide_eq_false_2; [done | | done].
      intros [?|?]%elem_of_cons; congruence.
Qed.

Lemma wf_set_child m m' n k kids :
  wf_node (Dir m kids) = true → valid_name n = true → wf_node k = true →
  wf_node (Dir m' (set_child n k kids)) = true.
Proof.
  intros Hwf Hn Hk. apply wf_node_Dir in Hwf as [Hnd Hall]. simpl.
  apply andb_true_iff. split.
  - apply NoDup_nodup_names. rewrite names_set_child.
    case_bool_decide; [done |]. apply NoDup_app. split; [done |].
    split; [|apply NoDup_singleton].
    intros x Hx ->%list_elem_of_singleton. done.
  - apply forallb_forall. intros [n' k'] Hin.
    apply list_elem_of_In in Hin. simpl. apply andb_true_iff.
    clear Hnd. induction kids as [|[n0 k0] kids IH]; simpl in Hin.
    + apply list_elem_of_singleton in Hin. by simplify_eq.
    + inversion Hall as [|?? [??] Hrest]; subst. simpl in *.
      case_bool_decide.
      * apply elem_of_cons in Hin as [?|Hin]; [by simplify_eq |].
        rewrite Forall_forall in Hrest. apply (Hrest _ Hin).
      * apply elem_of_cons in Hin as [?|Hin]; [by simplify_eq | by apply IH].
Qed.

Lemma node_at_frame_fs (w w' : World) (p : string) :
  w_fs w' = w_fs w → w_cwd w' = w_cwd w → node_at w' p = node_at w p.
Proof. intros Hf Hc. unfold node_at. by rewrite Hf, Hc. Qed.

Lemma content_view_Dir m kids :
  content_view (Dir m kids) = Dir (no_times m) (map (λ nk, (nk.1, content_view nk.2)) kids).
Proof. done. Qed.

Lemma content_view_File m d : content_view (File m d) = File (no_times m) d.
Proof. done. Qed.

(** The staged tree after the stub step. *)
Lemma make_stub_stage (p stageDir : string) (w w1 : World) (t : node) :
  node_at w stageDir = Some t → wf_node t = true →
  make_stub p stageDir w = (Ok tt, w1) →
  ∃ t1, node_at w1 stageDir = Some t1 ∧ wf_node t1 = true ∧
        content_view t1 = stub_view p (w_cwd w) (new_file_mode w) (content_view t).
Proof.
  intros Ht Hwf Hstub.
  assert (stageDir ≠ EmptyString) as Hne by (intros ->; by unfold node_at in Ht).
  unfold stub_view. case_bool_decide as Hd; cycle 1.
  { rewrite make_stub_top_level in Hstub by (by destruct (decide (Path.dirname p = "."))).
    simplify_eq. eauto. }
  rewrite make_stub_nested in Hstub by done.
  destruct (writeFile_inv _ _ _ _ Hstub)
    as (_ & parent & n & dm & kids & g & dm' & fm & Hcs & Hpar & Hch & -> & Hg & Hdm & Hfm).
  rewrite stub_path_top_level in Hcs by done.
  apply app_inj_tail in Hcs as [<- <-].
  unfold node_at in Ht. rewrite bool_decide_eq_false_2 in Ht by done.
  rewrite Hpar in Ht. simplify_eq.
  exists (g (Dir dm kids)). split; [|split].
  - unfold node_at. rewrite bool_decide_eq_false_2 by done. simpl.
    by rewrite lookup_alter_same, Hpar.
  - rewrite Hg. eapply wf_set_child; [done | | done].
    apply valid_name_js, parse_name_no_slash.
  - rewrite Hg, !content_view_Dir. unfold no_times at 1. rewrite Hdm. f_equal.
    rewrite (map_set_child content_view), content_view_File. f_equal.
    rewrite (child_map content_view). unfold stub_file_view, no_times. rewrite Hfm.
    f_equal. f_equal.
    destruct (child _ kids) as [[m0 d0|m0 ks0]|] eqn:E; simpl; try done.
Qed.

Lemma tmp_names_differ (n m : nat) :
  tmp_name "aws-lambda-" n EmptyString ≠ tmp_name "aws-lambda-" m ".zip".
Proof.
  intros E. apply (f_equal no_dot) in E. revert E. unfold tmp_name.
  assert (∀ a b, no_dot (a +:+ b) = no_dot a && no_dot b) as Happ.
  { induction a as [|x a IH]; intros b; [done |].
    rewrite append_cons. simpl. by rewrite IH, andb_assoc. }
  assert (∀ k, no_dot (string_of_nat k) = true) as Hdig.
  { intros k. unfold string_of_nat.
    pose proof (string_of_uint_chars (Nat.to_uint k)) as Hc.
    induction (NilEmpty.string_of_uint (Nat.to_uint k)) as [|c s IH]; [done |].
    simpl in *. inversion Hc as [|?? [_ Hd] Hs]; subst. by rewrite Hd, IH. }
  rewrite !Happ, !Hdig. done.
Qed.

Lemma node_at_tmp (w : World) (nm : string) :
  valid_name nm = true → node_at w (tmp_path nm) = lookup_node ["tmp"; nm] (w_fs w).
Proof.
  intros Hn. unfold node_at.
  rewrite bool_decide_eq_false_2 by apply tmp_path_nonempty.
  by rewrite resolve_tmp_path.
Qed.

Lemma remove_tmp_fs (w : World) (nm : string) :
  valid_name nm = true →
  w_fs (remove (tmp_path nm) w) = remove_node ["tmp"; nm] (w_fs w).
Proof.
  intros Hn. unfold remove.
  rewrite bool_decide_eq_false_2 by apply tmp_path_nonempty.
  simpl. by rewrite resolve_tmp_path.
Qed.

Section Archive.
Context `{Externals}.

Lemma package_stage_archive (p : string) (k : nat) (options : ICollectOpts)
    (w w' : World) (t : node) (z : string) :
  node_at w (tmp_path (tmp_name "aws-lambda-" k EmptyString)) = Some t →
  wf_node t = true →
  package_stage p (tmp_path (tmp_name "aws-lambda-" k EmptyString)) options w = (Ok z, w') →
  ∀ v,
    readFile z (remove (tmp_path (tmp_name "aws-lambda-" k EmptyString))
                  (env_assign_NODE_PATH v w')) =
    (Ok (zip_program
           (kids_of (stub_view p (w_cwd w) (new_file_mode w) (content_view t)))).2,
     remove (tmp_path (tmp_name "aws-lambda-" k EmptyString)) (env_assign_NODE_PATH v w')).
Proof.
  set (sname := tmp_name "aws-lambda-" k EmptyString). set (sd := tmp_path sname).
  assert (valid_name sname = true) as Hsn by by apply tmp_name_valid.
  intros Ht Hwf E v. unfold package_stage in E.
  unfold bind at 1 in E.
  destruct (make_stub p sd w) as [[[]|e] w1] eqn:E1; [|done].
  destruct (make_stub_stage _ _ _ _ _ Ht Hwf E1) as (t1 & Ht1 & Hwf1 & Hcv1).
  unfold bind at 1 in E.
  destruct (normalize_times_run sd w1 t1 Ht1 Hwf1)
    as (w2 & t2 & E2 & Ht2 & Hm2 & Hcv2 & Hproc & _).
  rewrite E2 in E.
  assert (content_view t2 = content_view t1) as Hcv21.
  { destruct (node_at_content_view w1 w2 sd t1) as (t' & Ht' & ?);
      [apply Hproc | done | done |]. congruence. }
  unfold bind at 1 in E. unfold tmp_file at 1 in E.
  set (zname := tmp_name "aws-lambda-" (w_tmp w2) ".zip") in *.
  assert (valid_name zname = true) as Hzn by by apply tmp_name_valid.
  assert (sname ≠ zname) as Hsz by apply tmp_names_differ.
  unfold bind at 1 in E. unfold modify at 1 in E.
  unfold bind at 1 in E.
  match type of E with
  | context [spawn_zip ?z0 ?d ?w0] => remember w0 as w4 eqn:Ew4
  end.
  assert (node_at w4 sd = Some t2) as Ht4.
  { rewrite Ew4. unfold sd. rewrite node_at_tmp, remove_tmp_fs by done.
    cbn [w_fs set_clock set_tmp set_fs].
    rewrite lookup_remove_sibling, lookup_put_sibling by done.
    unfold sd in Ht2. by rewrite node_at_tmp in Ht2. }
  unfold spawn_zip in E. rewrite Ht4 in E.
  destruct t2 as [|dm kids]; [done |].
  destruct (zip_program (zip_view kids)) as [code data] eqn:Ezip.
  case_bool_decide; [done |].
  assert (z = tmp_path zname ∧
          w_fs w' = put_node (w_clock w4) ["tmp"; zname]
                      (File {| mode := new_file_mode w4; atime := w_clock w4;
                               mtime := w_clock w4 |} data) (w_fs w4)) as [-> Hfs].
  { rewrite resolve_tmp_path in E by done.
    unfold bind at 1 in E. destruct (cache options); simpl in E;
      unfold modify, ret in E; injection E as <- <-; done. }
  unfold readFile.
  rewrite node_at_tmp by done.
  assert (w_fs (remove sd (env_assign_NODE_PATH v w')) = remove_node ["tmp"; sname] (w_fs w'))
    as ->.
  { unfold sd. by rewrite remove_tmp_fs. }
  fold sname sd.
  rewrite lookup_remove_sibling by done.
  rewrite Hfs, lookup_put_same. f_equal. f_equal.
  rewrite <- Hcv1, <- Hcv21.
  change kids with (kids_of (Dir dm kids)) in Ezip.
  rewrite zip_view_normalized in Ezip by done. by rewrite Ezip.
Qed.

Lemma collect_world_eq (p : string) (options : ICollectOpts) (w : World) args l :
  collect_args options w = (Ok args, set_browserifyArgs l w) →
  collect_world p options w =
  collectJsDeps (["--outdir"; stage_dir w] ++ args ++ [p])
    match nodePath options with
    | Some v =>
        env_assign_NODE_PATH (Some v)
          (emit (LogDebug ("Collecting files from " +:+ p +:+ " in " +:+ stage_dir w))
             (tmp_dir "aws-lambda-" (set_browserifyArgs l w)).2)
    | None =>
        emit (LogDebug ("Collecting files from " +:+ p +:+ " in " +:+ stage_dir w))
          (tmp_dir "aws-lambda-" (set_browserifyArgs l w)).2
    end.
Proof.
  intros Ha. unfold collect_world.
  unfold bind at 1. rewrite Ha.
  unfold bind at 1. unfold tmp_dir at 1.
  unfold bind at 1. unfold logger_debug at 1, modify at 1.
  unfold bind at 1.
  destruct (nodePath options); unfold modify, ret; done.
Qed.

(** The archive of a run is determined by the entry path, the working
    directory, the mask and the staged contents. *)
Lemma archive_of_run (p : string) (options : ICollectOpts) (w wc w' : World)
    (t : node) (z : string) :
  (if cache options then w_cache w !! p else None) = None →
  collect_world p options w = (Ok tt, wc) →
  node_at wc (stage_dir w) = Some t → wf_node t = true →
  _makeTmpZipFile p options w = (Ok z, w') →
  readFile z w' =
    (Ok (zip_program
           (kids_of (stub_view p (w_cwd w) (new_file_mode w) (content_view t)))).2, w').
Proof.
  intros Hmiss Hcol Ht Hwf Hrun.
  destruct (makeTmpZipFile_miss p options w Hmiss) as (args & l & Ha & Heq).
  rewrite Heq in Hrun. clear Heq. cbv zeta in Hrun.
  rewrite (collect_world_eq p options w args l Ha) in Hcol.
  rewrite Hcol in Hrun.
  destruct (package_stage p (stage_dir w) options wc) as [r w1] eqn:Epk.
  injection Hrun as -> <-.
  assert (w_cwd wc = w_cwd w ∧ w_umask wc = w_umask w) as [Hc Hu].
  { unfold collectJsDeps in Hcol.
    destruct (collector _ _ _ _) as [r fs']. injection Hcol as _ <-.
    by destruct (nodePath options). }
  pose proof (package_stage_archive p (w_tmp w) options wc w1 t z Ht Hwf Epk
                (w_NODE_PATH w)) as Hread.
  unfold new_file_mode in *. by rewrite Hc, Hu in Hread.
Qed.

(** C3. Two runs on one entry path, each in its own staging directory,
    whose collectors stage the same contents (names in the same directory
    order, kinds, modes and data; the times may differ) and which make the
    same stub (same working directory and mask) return archives with the
    same bytes. *)
Theorem archive_reproducible (p : string) (o1 o2 : ICollectOpts)
    (w1 w2 wc1 wc2 w1' w2' : World) (t1 t2 : node) (z1 z2 : string) :
  (if cache o1 then w_cache w1 !! p else None) = None →
  (if cache o2 then w_cache w2 !! p else None) = None →
  collect_world p o1 w1 = (Ok tt, wc1) →
  collect_world p o2 w2 = (Ok tt, wc2) →
  node_at wc1 (stage_dir w1) = Some t1 → wf_node t1 = true →
  node_at wc2 (stage_dir w2) = Some t2 → wf_node t2 = true →
  content_view t1 = content_view t2 →
  w_cwd w1 = w_cwd w2 → w_umask w1 = w_umask w2 →
  _makeTmpZipFile p o1 w1 = (Ok z1, w1') →
  _makeTmpZipFile p o2 w2 = (Ok z2, w2') →
  ∃ data, readFile z1 w1' = (Ok data, w1') ∧ readFile z2 w2' = (Ok data, w2').
Proof.
  intros Hm1 Hm2 Hc1 Hc2 Ht1 Hwf1 Ht2 Hwf2 Hcv Hcwd Hum Hr1 Hr2.
  eexists. split.
  - by apply (archive_of_run p o1 w1 wc1 w1' t1 z1).
  - rewrite (archive_of_run p o2 w2 wc2 w2' t2 z2) by done.
    unfold new_file_mode. by rewrite Hcv, Hcwd, Hum.
Qed.

End Archive.

(** ** Listing by prefix *)

Lemma str_prefix_refl (s : string) : String.prefix s s = true.
Proof.
  induction s as [|c s IH]; [done |]. simpl. by destruct (ascii_dec c c).
Qed.

Lemma str_prefix_le (a b : string) : String.prefix a b = true → String.le a b.
Proof.
  unfold String.le, String.leb. revert b.
  induction a as [|c a IH]; intros b Hp.
  - by destruct b.
  - destruct b as [|c' b]; [done |]. simpl in Hp.
    destruct (ascii_dec c c') as [<-|]; [|done]. simpl.
    assert (Ascii.compare c c = Eq) as ->.
    { unfold Ascii.compare. apply N.compare_refl. }
    by apply IH.
Qed.

Lemma elem_of_list_keys (objs : gmap string bytes) (prefix k : string) :
  k ∈ list_keys objs prefix ↔ is_Some (objs !! k) ∧ String.prefix prefix k = true.
Proof.
  unfold list_keys. rewrite merge_sort_Permutation.
  rewrite list_elem_of_In, filter_In, <- list_elem_of_In.
  change (map fst (map_to_list objs)) with (fst <$> map_to_list objs).
  rewrite list_elem_of_fmap. split.
  - intros [([k' v] & -> & Hin) Hp]. split; [|done].
    apply elem_of_map_to_list in Hin. by exists v.
  - intros [[v Hv] Hp]. split; [|done].
    exists (k, v). split; [done |]. by apply elem_of_map_to_list.
Qed.

(** Listing one key with the key itself as the prefix finds the object of
    that key or nothing of that name. *)
Lemma list_keys_exact (objs : gmap string bytes) (k : string) :
  match take 1 (list_keys objs k) with
  | k0 :: _ => bool_decide (k0 = k)
  | [] => false
  end = bool_decide (is_Some (objs !! k)).
Proof.
  pose proof (elem_of_list_keys objs k) as Hin.
  assert (StronglySorted String.le (list_keys objs k)) as Hs.
  { unfold list_keys. apply StronglySorted_merge_sort; apply _. }
  destruct (list_keys objs k) as [|k0 rest] eqn:El; simpl.
  - symmetry. apply bool_decide_eq_false. intros Hk.
    assert (k ∈ @nil string) as Hn by (apply Hin; split; [done | apply str_prefix_refl]).
    by apply elem_of_nil in Hn.
  - destruct (decide (is_Some (objs !! k))) as [Hk|Hk].
    + rewrite (bool_decide_eq_true_2 (is_Some _)) by done.
      apply bool_decide_eq_true.
      assert (k ∈ k0 :: rest) as Hkin by (apply Hin; split; [done | apply str_prefix_refl]).
      assert (String.le k k0) as Hle1.
      { apply str_prefix_le. apply (Hin k0). by left. }
      apply elem_of_cons in Hkin as [->|Hkin]; [done |].
      inversion Hs as [|?? _ Hall]; subst.
      rewrite Forall_forall in Hall.
      by apply (anti_symm String.le); [apply Hall |].
    + rewrite (bool_decide_eq_false_2 (is_Some _)) by done.
      apply bool_decide_eq_false. intros ->. apply Hk, (Hin k). by left.
Qed.

Section Sinks.
Context `{Externals}.

(** C6. The key is [s3_key], a function of the prefix and of the bytes of
    the archive. The listing looks for exactly that key: when the bucket
    has an object there, nothing is uploaded and the store is as before;
    when it has not, the archive is uploaded under the key with the digest
    of its bytes as [ContentMD5]. Both ways the same bucket and key are
    returned. *)
Theorem upload_zip_spec (b s3Prefix : string) (zipData : bytes) (w : World)
    (objs : gmap string bytes) :
  buckets (w_s3 w) !! b = Some objs →
  let k := s3_key s3Prefix zipData in
  let w1 := emit (S3ListObjectsV2 b 1 k)
              (emit (LogDebug ("Uploading zipped data to s3://" +:+ b +:+ "/" +:+ k)) w) in
  (is_Some (objs !! k) →
   upload_zip b s3Prefix zipData w =
     (Ok {| bucket := b; key := k |},
      emit (LogInfo ("s3://" +:+ b +:+ "/" +:+ k +:+ " already exists, skipping upload")) w1)) ∧
  (objs !! k = None →
   upload_zip b s3Prefix zipData w =
     (Ok {| bucket := b; key := k |},
      emit (LogInfo ("s3://" +:+ b +:+ "/" +:+ k +:+ " uploaded"))
        (set_s3 (λ s, {| buckets := <[b := <[k := zipData]> objs]> (buckets s);
                         refused := refused s |})
           (emit (S3Upload b k (to_base64 (md5 zipData))) w1)))).
Proof.
  intros Hb k w1.
  assert (upload_zip b s3Prefix zipData w =
          bind
            (if bool_decide (is_Some (objs !! k)) then
               logger_info ("s3://" +:+ b +:+ "/" +:+ k +:+ " already exists, skipping upload")
             else
               bind (upload zipData b k (to_base64 (md5 zipData)))
                 (λ _, logger_info ("s3://" +:+ b +:+ "/" +:+ k +:+ " uploaded")))
            (λ _, ret {| bucket := b; key := k |}) w1) as ->.
  { unfold upload_zip. fold k.
    unfold bind at 1. unfold logger_debug at 1, modify at 1.
    unfold bind at 1. unfold listObjectsV2 at 1. simpl w_s3. rewrite Hb.
    by rewrite list_keys_exact. }
  split.
  - intros Hk. by rewrite bool_decide_eq_true_2.
  - intros Hk. rewrite bool_decide_eq_false_2 by (rewrite Hk; by intros [??]).
    unfold bind at 1. unfold bind at 1. unfold upload at 1.
    simpl w_s3. rewrite Hb. by rewrite bool_decide_eq_true_2.
Qed.

(** C7. A bucket that exists and may be read is used as it is; a bucket
    that does not exist is created; when the check is refused for another
    reason, [packageZipS3] fails, with the guidance on permissions for
    [Forbidden] and with the error of the service otherwise, and has by
    then called nothing but [headBucket]: no collector, no upload. *)
Theorem bucket_check (p : string) (options : IS3Opts) (w : World) :
  let b := or_default (s3Bucket options) defaultBucket in
  (refused (w_s3 w) !! b = None → is_Some (buckets (w_s3 w) !! b) →
   ensure_bucket b w =
     (Ok tt, emit (LogDebug ("Bucket s3://" +:+ b +:+ " exists")) (emit (S3HeadBucket b) w))) ∧
  (refused (w_s3 w) !! b = None → buckets (w_s3 w) !! b = None →
   ensure_bucket b w =
     (Ok tt,
      set_s3 (λ s, {| buckets := <[b := ∅]> (buckets s); refused := refused s |})
        (emit (S3CreateBucket b)
           (emit (LogInfo ("Bucket s3://" +:+ b +:+ " missing; creating"))
              (emit (S3HeadBucket b) w))))) ∧
  (∀ code, refused (w_s3 w) !! b = Some code → code ≠ "NotFound" →
   packageZipS3 p options w =
     (Err (if bool_decide (code = "Forbidden") then forbidden_error b
           else sysError code code),
      emit (S3HeadBucket b)
        (emit (LogInfo ("Packaging " +:+ p +:+ " for " +:+ js_String (region options) +:+
                        " s3://" +:+ b +:+ "/" +:+ or_default (s3Prefix options) EmptyString
                        +:+ "...")) w))).
Proof.
  intros b. split; [|split].
  - intros Hr [objs Hb]. unfold ensure_bucket, try_catch, bind, headBucket.
    by rewrite Hr, Hb.
  - intros Hr Hb. unfold ensure_bucket, try_catch. unfold bind at 1. unfold headBucket.
    rewrite Hr, Hb. simpl.
    unfold bind, logger_info, modify, createBucket. simpl. by rewrite Hb.
  - intros code Hr Hne. unfold packageZipS3. fold b.
    unfold bind at 1. unfold logger_info at 1, modify at 1.
    unfold bind at 1. unfold ensure_bucket, try_catch. unfold bind at 1.
    unfold headBucket. simpl w_s3. rewrite Hr.
    change (e_code (sysError code code)) with code.
    destruct (decide (code = "Forbidden")) as [->|Hf].
    + done.
    + rewrite (bool_decide_eq_false_2 (code = "Forbidden")) by done.
      by rewrite bool_decide_eq_true_2.
Qed.

Lemma extname_not_json (p : string) : Path.extname p ≠ "json".
Proof. destruct (extname_shape p) as [-> | [r ->]]; done. Qed.

(** C10. With the extension that [cloudformationPackage] passes, the
    result of [path.extname], which is empty or starts with a dot and so is
    never ["json"], [parseTemplate] returns what [JSON.parse] returns when
    that succeeds, tries YAML when it fails, and fails only when both
    do. *)
Theorem parseTemplate_extname (templatePath text : string) :
  parseTemplate text (Path.extname templatePath) =
  match JSON_parse text with
  | Ok v => Ok v
  | Err _ =>
      match yamlParse text with
      | Ok v => Ok v
      | Err e2 => Err (mkError ("Unable to parse YAML template: " +:+ err_to_string e2))
      end
  end.
Proof.
  unfold parseTemplate. destruct (JSON_parse text); [done |].
  by rewrite bool_decide_eq_false_2 by apply extname_not_json.
Qed.

End Sinks.

(** ** The properties on the fixtures *)

#[local] Existing Instance Fixture.fx.


Lemma normalize_times_spec_witness :
  ∃ w' t',
    normalize_times "/tmp/aws-lambda-0" (Fixture.staged "lib/bar.js" None 0 100) = (Ok tt, w') ∧
    node_at w' "/tmp/aws-lambda-0" = Some t' ∧ all_mtime 0 t' = true ∧
    content_view (w_fs w') = content_view (w_fs (Fixture.staged "lib/bar.js" None 0 100)).
Proof.
  eapply normalize_times_spec; [vm_compute; reflexivity | vm_compute; reflexivity].
Defined.

(** The staged files of that run carry the time of the run before the
    step. *)
Example staged_times_before :
  mtime_at (Fixture.staged "lib/bar.js" None 0 100) "/tmp/aws-lambda-0/lib/bar.js"
    = Some 100%Z.
Proof. by vm_compute. Qed.

Lemma make_stub_frame_witness :
  Path.dirname "lib/bar.js" ≠ "." ∧
  make_stub "lib/bar.js" "/tmp/aws-lambda-0" (Fixture.staged "lib/bar.js" None 0 100) =
    (Ok tt, (make_stub "lib/bar.js" "/tmp/aws-lambda-0"
               (Fixture.staged "lib/bar.js" None 0 100)).2) ∧
  entry_at (make_stub "lib/bar.js" "/tmp/aws-lambda-0"
              (Fixture.staged "lib/bar.js" None 0 100)).2 "/tmp/aws-lambda-0/bar.js" =
    Some (Some (stub_text "lib/bar")) ∧
  entry_at (make_stub "lib/bar.js" "/tmp/aws-lambda-0"
              (Fixture.staged "lib/bar.js" None 0 100)).2 "/tmp/aws-lambda-0/lib/bar.js" =
    entry_at (Fixture.staged "lib/bar.js" None 0 100) "/tmp/aws-lambda-0/lib/bar.js".
Proof.
  assert (Path.dirname "lib/bar.js" ≠ ".") as Hd by (by vm_compute).
  assert (make_stub "lib/bar.js" "/tmp/aws-lambda-0" (Fixture.staged "lib/bar.js" None 0 100) =
          (Ok tt, (make_stub "lib/bar.js" "/tmp/aws-lambda-0"
                     (Fixture.staged "lib/bar.js" None 0 100)).2)) as Hs by (by vm_compute).
  destruct (make_stub_frame _ _ _ _ Hd Hs) as [H1 H2].
  split; [done |]. split; [done |]. split; [exact H1 |].
  apply H2; [done | by vm_compute].
Defined.

(** C8, where it fails. [lib/bar.js] requires [../bar], so the collector
    stages [bar.js] at the top level, which is also where the stub of
    [lib/bar.js] goes: the staged file is there before the stub step, and
    after it the path holds the text of the stub. *)
Lemma stub_overwrites_staged_file :
  entry_at (Fixture.staged "lib/bar.js" None 0 100) "/tmp/aws-lambda-0/bar.js" =
    Some (Some "exports.top = 1;") ∧
  (make_stub "lib/bar.js" "/tmp/aws-lambda-0" (Fixture.staged "lib/bar.js" None 0 100)).1 =
    Ok tt ∧
  entry_at (make_stub "lib/bar.js" "/tmp/aws-lambda-0"
              (Fixture.staged "lib/bar.js" None 0 100)).2 "/tmp/aws-lambda-0/bar.js" =
    Some (Some (stub_text "lib/bar")) ∧
  stub_text "lib/bar" ≠ "exports.top = 1;".
Proof. split; [by vm_compute |]. split; [by vm_compute |]. split; by vm_compute. Qed.

(** The stub of an entry in a subdirectory, as the test suite has it: the
    module it requires, with [.js] added, is the staged entry. *)
Example stub_nested_reaches_entry :
  entry_at (make_stub "lib/bar.js" "/tmp/aws-lambda-0"
              (Fixture.staged "lib/bar.js" None 0 100)).2
    (Path.join "/tmp/aws-lambda-0" ("./" +:+ "lib/bar" +:+ ".js")) =
    Some (Some "exports.bar = require('../bar');").
Proof. by vm_compute. Qed.

(** C2, where the code departs from it. The entry [/work/index.js] of a
    process in [/work] is in the base directory, but [path.dirname] gives
    ["/work"] and not ["."]: the stub is written at [<stage>/index.js], in
    the place of the staged entry, the staging directory then holds that
    one file, and the module the stub requires, [./index], is the stub. *)
Lemma stub_requires_itself :
  Path.dirname "/work/index.js" = "/work" ∧
  Path.resolve_segs (w_cwd (Fixture.staged "/work/index.js" None 0 100))
    (Path.dirname "/work/index.js") = w_cwd (Fixture.staged "/work/index.js" None 0 100) ∧
  entry_at (Fixture.staged "/work/index.js" None 0 100) "/tmp/aws-lambda-0/index.js" =
    Some (Some "exports.handler = 4;") ∧
  (make_stub "/work/index.js" "/tmp/aws-lambda-0"
     (Fixture.staged "/work/index.js" None 0 100)).1 = Ok tt ∧
  entry_at (make_stub "/work/index.js" "/tmp/aws-lambda-0"
              (Fixture.staged "/work/index.js" None 0 100)).2
    (Path.join "/tmp/aws-lambda-0" ("./" +:+ "index" +:+ ".js")) =
    Some (Some (stub_text "index")) ∧
  readdir "/tmp/aws-lambda-0"
    (make_stub "/work/index.js" "/tmp/aws-lambda-0"
       (Fixture.staged "/work/index.js" None 0 100)).2 =
    (Ok ["index.js"],
     (make_stub "/work/index.js" "/tmp/aws-lambda-0"
        (Fixture.staged "/work/index.js" None 0 100)).2).
Proof.
  split; [reflexivity |]. split; [by vm_compute |]. split; [by vm_compute |].
  split; [by vm_compute |]. split; by vm_compute.
Qed.

Lemma archive_reproducible_witness :
  (_makeTmpZipFile "lib/bar.js" (Fixture.opts false) (Fixture.world None 0 100)).1 =
    Ok "/tmp/aws-lambda-1.zip" ∧
  (_makeTmpZipFile "lib/bar.js" (Fixture.opts false) (Fixture.world (Some ".") 5 2000)).1 =
    Ok "/tmp/aws-lambda-6.zip" ∧
  ∃ data,
    readFile "/tmp/aws-lambda-1.zip"
      (_makeTmpZipFile "lib/bar.js" (Fixture.opts false) (Fixture.world None 0 100)).2 =
      (Ok data,
       (_makeTmpZipFile "lib/bar.js" (Fixture.opts false) (Fixture.world None 0 100)).2) ∧
    readFile "/tmp/aws-lambda-6.zip"
      (_makeTmpZipFile "lib/bar.js" (Fixture.opts false) (Fixture.world (Some ".") 5 2000)).2 =
      (Ok data,
       (_makeTmpZipFile "lib/bar.js" (Fixture.opts false)
          (Fixture.world (Some ".") 5 2000)).2).
Proof.
  split; [by vm_compute |]. split; [by vm_compute |].
  eapply (archive_reproducible "lib/bar.js" (Fixture.opts false) (Fixture.opts false)
            (Fixture.world None 0 100) (Fixture.world (Some ".") 5 2000)).
  - reflexivity.
  - reflexivity.
  - vm_compute. reflexivity.
  - vm_compute. reflexivity.
  - vm_compute. reflexivity.
  - vm_compute. reflexivity.
  - vm_compute. reflexivity.
  - vm_compute. reflexivity.
  - vm_compute. reflexivity.
  - reflexivity.
  - reflexivity.
  - vm_compute. reflexivity.
  - vm_compute. reflexivity.
Defined.

(** The two runs of that witness staged their files at different times. *)
Example witness_runs_differ_in_times :
  mtime_at (Fixture.staged "lib/bar.js" None 0 100) "/tmp/aws-lambda-0/lib/bar.js"
    = Some 100%Z ∧
  mtime_at (Fixture.staged "lib/bar.js" (Some ".") 5 2000) "/tmp/aws-lambda-5/lib/bar.js"
    = Some 2000%Z.
Proof. by vm_compute. Qed.

Lemma makeTmpZipFile_cache_witness :
  cache (Fixture.opts true) = true ∧
  _makeTmpZipFile "foo.js" (Fixture.opts true)
    (Fixture.with_cache {["foo.js" := "/tmp/old.zip"]} (Fixture.world None 0 100)) =
    (Ok "/tmp/old.zip",
     emit (LogDebug "Reusing cached zip file for foo.js")
       (Fixture.with_cache {["foo.js" := "/tmp/old.zip"]} (Fixture.world None 0 100))) ∧
  ∃ args np evs,
    w_trace (_makeTmpZipFile "foo.js" (Fixture.opts true) (Fixture.world None 0 100)).2 =
      w_trace (Fixture.world None 0 100) ++
      LogDebug ("Collecting files from " +:+ "foo.js" +:+ " in " +:+
                stage_dir (Fixture.world None 0 100)) ::
      CallCollect (["--outdir"; stage_dir (Fixture.world None 0 100)] ++ args ++ ["foo.js"]) np
      :: evs ∧
    ∀ z, (_makeTmpZipFile "foo.js" (Fixture.opts true) (Fixture.world None 0 100)).1 = Ok z →
      w_cache (_makeTmpZipFile "foo.js" (Fixture.opts true) (Fixture.world None 0 100)).2 =
        <["foo.js" := z]> (w_cache (Fixture.world None 0 100)).
Proof.
  split; [reflexivity |]. split.
  - apply (makeTmpZipFile_cache "foo.js" (Fixture.opts true)
             (Fixture.with_cache {["foo.js" := "/tmp/old.zip"]} (Fixture.world None 0 100)));
      reflexivity.
  - apply (makeTmpZipFile_cache "foo.js" (Fixture.opts true) (Fixture.world None 0 100));
      reflexivity.
Defined.

(** The run of that witness that misses returns an archive. *)
Example miss_builds_archive :
  (_makeTmpZipFile "foo.js" (Fixture.opts true) (Fixture.world None 0 100)).1 =
    Ok "/tmp/aws-lambda-1.zip".
Proof. by vm_compute. Qed.

Lemma upload_zip_spec_witness :
  s3_key "pre" "archive" = "pre/md5x7.zip" ∧
  upload_zip "b" "pre" "archive"
    (Fixture.with_s3 {| buckets := {["b" := {["pre/md5x7.zip" := "archive"]}]}; refused := ∅ |}
       (Fixture.world None 0 100)) =
    (Ok {| bucket := "b"; key := "pre/md5x7.zip" |},
     emit (LogInfo "s3://b/pre/md5x7.zip already exists, skipping upload")
       (emit (S3ListObjectsV2 "b" 1 "pre/md5x7.zip")
          (emit (LogDebug "Uploading zipped data to s3://b/pre/md5x7.zip")
             (Fixture.with_s3
                {| buckets := {["b" := {["pre/md5x7.zip" := "archive"]}]}; refused := ∅ |}
                (Fixture.world None 0 100))))) ∧
  (upload_zip "b" "pre" "archive"
     (Fixture.with_s3 {| buckets := {["b" := ∅]}; refused := ∅ |}
        (Fixture.world None 0 100))).1 =
    Ok {| bucket := "b"; key := "pre/md5x7.zip" |} ∧
  buckets (w_s3 (upload_zip "b" "pre" "archive"
                   (Fixture.with_s3 {| buckets := {["b" := ∅]}; refused := ∅ |}
                      (Fixture.world None 0 100))).2) =
    {["b" := {["pre/md5x7.zip" := "archive"]}]}.
Proof.
  split; [by vm_compute |].
  destruct (upload_zip_spec "b" "pre" "archive"
              (Fixture.with_s3
                 {| buckets := {["b" := {["pre/md5x7.zip" := "archive"]}]}; refused := ∅ |}
                 (Fixture.world None 0 100))
              {["pre/md5x7.zip" := "archive"]}) as [Hskip _]; [reflexivity |].
  destruct (upload_zip_spec "b" "pre" "archive"
              (Fixture.with_s3 {| buckets := {["b" := ∅]}; refused := ∅ |}
                 (Fixture.world None 0 100)) ∅) as [_ Hup]; [reflexivity |].
  split; [apply Hskip; by vm_compute; eexists |].
  rewrite Hup by reflexivity. split; [done |]. by vm_compute.
Defined.

Lemma bucket_check_witness :
  ensure_bucket defaultBucket
    (Fixture.with_s3 {| buckets := {[defaultBucket := ∅]}; refused := ∅ |}
       (Fixture.world None 0 100)) =
    (Ok tt,
     emit (LogDebug "Bucket s3://aws-lambda-upload exists")
       (emit (S3HeadBucket defaultBucket)
          (Fixture.with_s3 {| buckets := {[defaultBucket := ∅]}; refused := ∅ |}
             (Fixture.world None 0 100)))) ∧
  (ensure_bucket defaultBucket (Fixture.world None 0 100)).1 = Ok tt ∧
  buckets (w_s3 (ensure_bucket defaultBucket (Fixture.world None 0 100)).2) =
    {[defaultBucket := ∅]} ∧
  packageZipS3 "lib/bar.js" (Fixture.s3opts false None)
    (Fixture.with_s3 {| buckets := ∅; refused := {[defaultBucket := "Forbidden"]} |}
       (Fixture.world None 0 100)) =
    (Err (forbidden_error defaultBucket),
     emit (S3HeadBucket defaultBucket)
       (emit (LogInfo "Packaging lib/bar.js for undefined s3://aws-lambda-upload/...")
          (Fixture.with_s3 {| buckets := ∅; refused := {[defaultBucket := "Forbidden"]} |}
             (Fixture.world None 0 100)))).
Proof.
  destruct (bucket_check "lib/bar.js" (Fixture.s3opts false None)
              (Fixture.with_s3 {| buckets := {[defaultBucket := ∅]}; refused := ∅ |}
                 (Fixture.world None 0 100))) as (H1 & _ & _).
  destruct (bucket_check "lib/bar.js" (Fixture.s3opts false None) (Fixture.world None 0 100))
    as (_ & H2 & _).
  destruct (bucket_check "lib/bar.js" (Fixture.s3opts false None)
              (Fixture.with_s3 {| buckets := ∅; refused := {[defaultBucket := "Forbidden"]} |}
                 (Fixture.world None 0 100))) as (_ & _ & H3).
  split; [apply H1; [reflexivity | by eexists] |].
  pose proof (H2 eq_refl eq_refl) as E2.
  change (or_default (s3Bucket (Fixture.s3opts false None)) defaultBucket)
    with defaultBucket in E2.
  rewrite E2.
  split; [done |]. split; [by vm_compute |].
  by apply (H3 "Forbidden").
Defined.

(** C9, where the code departs from it. [NODE_PATH] is not set when
    [_makeTmpZipFile] is called; the call returns an archive, and the
    [finally] block has assigned [undefined] to [process.env.NODE_PATH],
    which leaves the variable set, to the string ["undefined"]. *)
Lemma NODE_PATH_unset_not_restored :
  w_NODE_PATH (Fixture.world None 0 100) = None ∧
  (_makeTmpZipFile "foo.js" (Fixture.opts false) (Fixture.world None 0 100)).1 =
    Ok "/tmp/aws-lambda-1.zip" ∧
  w_NODE_PATH (_makeTmpZipFile "foo.js" (Fixture.opts false) (Fixture.world None 0 100)).2 =
    Some "undefined".
Proof. by vm_compute. Qed.

(** The two uploads of the test suite: the second run finds the entry in
    the cache and the key in the bucket, so that the two runs together
    call the collector once and upload once. *)
Example second_upload_skipped :
  (packageZipS3 "lib/bar.js" (Fixture.s3opts true None) (Fixture.world None 0 100)).1 =
  (packageZipS3 "lib/bar.js" (Fixture.s3opts true None)
     (packageZipS3 "lib/bar.js" (Fixture.s3opts true None) (Fixture.world None 0 100)).2).1 ∧
  length (omap (λ e, match e with S3Upload _ k _ => Some k | _ => None end)
            (w_trace (packageZipS3 "lib/bar.js" (Fixture.s3opts true None)
                        (packageZipS3 "lib/bar.js" (Fixture.s3opts true None)
                           (Fixture.world None 0 100)).2).2)) = 1 ∧
  length (omap (λ e, match e with CallCollect a _ => Some a | _ => None end)
            (w_trace (packageZipS3 "lib/bar.js" (Fixture.s3opts true None)
                        (packageZipS3 "lib/bar.js" (Fixture.s3opts true None)
                           (Fixture.world None 0 100)).2).2)) = 1.
Proof. by vm_compute. Qed.
